(** * ddd_tiny_example: the todo service and the file-backed unit of work

    A shallow embedding of [service_layer.py] and [uow_repo.py], and the
    properties of the repository's specification proved (or refuted) on it.

    - [Py]            what both files use of Python: outcomes of a call
                      (a value or a raised exception) and [dict] with its
                      insertion order.
    - [ServiceLayer]  [Todo], [TodoPolicy], [TodoRepository] with its
                      in-memory implementation, and [TodoService].
    - [UowRepo]       [Entity], [SpecificRepo] and [FileUoW] over a store
                      of entity objects and a file system. *)

From Stdlib Require Import ZArith NArith List Ascii Lia.
From stdpp Require Import base option list gmap strings.


(* ===================================================================== *)
(** * Python values shared by both files *)
(* ===================================================================== *)

Module Py.

(** The outcome of a call: it returns a value or raises an exception. *)
Inductive result (E A : Type) : Type :=
| Ok (a : A)
| Raise (e : E).
Arguments Ok {E A} a.
Arguments Raise {E A} e.

Definition is_ok {E A} (r : result E A) : bool :=
  match r with Ok _ => true | Raise _ => false end.

(** ** [dict]

    A Python [dict] keeps its keys in insertion order: assigning to a key
    that is present replaces the value where the key stands, assigning to a
    new key appends it.  The order is observable in [FileUoW.commit], which
    iterates over [session.values()], so a dict is an association list
    here and not a finite map. *)
Section Dict.
Context {K V : Type} `{EqDecision K}.

Definition dict := list (K * V).

(** [d[k]], [None] where Python raises [KeyError]. *)
Fixpoint dict_get (k : K) (d : dict) : option V :=
  match d with
  | [] => None
  | (k', v) :: d' => if decide (k = k') then Some v else dict_get k d'
  end.

(** [d[k] = v] *)
Fixpoint dict_set (k : K) (v : V) (d : dict) : dict :=
  match d with
  | [] => [(k, v)]
  | (k', v') :: d' =>
      if decide (k = k') then (k, v) :: d' else (k', v') :: dict_set k v d'
  end.

(** [d.update(other)]: the items of [other] are assigned in their order. *)
Definition dict_update (d other : dict) : dict :=
  fold_left (fun acc kv => dict_set kv.1 kv.2 acc) other d.

(** The dict built from a sequence of items, as a dict display, a dict
    comprehension and [json.loads] on an object build it: a repeated key
    keeps its first position and takes its last value. *)
Definition dict_of_items (items : list (K * V)) : dict :=
  dict_update [] items.

Definition keys (d : dict) : list K := d.*1.
Definition values (d : dict) : list V := d.*2.

(** The value of the last item with key [k]. *)
Fixpoint last_item (k : K) (items : list (K * V)) : option V :=
  match items with
  | [] => None
  | (k', v) :: rest =>
      match last_item k rest with
      | Some w => Some w
      | None => if decide (k = k') then Some v else None
      end
  end.
End Dict.
Arguments dict : clear implicits.

End Py.
Import Py.

(* ===================================================================== *)
(** * service_layer.py *)
(* ===================================================================== *)

Module ServiceLayer.

(** A Python [str] is a sequence of Unicode code points; [len] counts
    them. *)
Definition str := list N.

Definition len (s : str) : Z := Z.of_nat (length s).

(** [str.isspace] on one character: the code points CPython treats as
    whitespace, which are the ones [str.strip()] removes. *)
Definition isspace (c : N) : bool :=
  ((9 <=? c) && (c <=? 13) || (28 <=? c) && (c <=? 32)
   || (c =? 133) || (c =? 160) || (c =? 5760)
   || (8192 <=? c) && (c <=? 8202)
   || (c =? 8232) || (c =? 8233) || (c =? 8239) || (c =? 8287)
   || (c =? 12288))%N.

Fixpoint lstrip (s : str) : str :=
  match s with
  | [] => []
  | c :: s' => if isspace c then lstrip s' else s
  end.

Definition rstrip (s : str) : str := rev (lstrip (rev s)).

Definition strip (s : str) : str := rstrip (lstrip s).

(** Truth value of a [str]: the empty string is falsy. *)
Definition truthy (s : str) : bool :=
  match s with [] => false | _ :: _ => true end.

(** A [UUID] is its 128-bit integer. *)
Definition UUID := N.

(** The exception classes of the file, each with the message it was
    raised with ([str(e)] is that message). *)
Inductive exn : Type :=
| InvalidTodoException (msg : string)
| TodoLimitReachedException (msg : string)
| ValidationError (msg : string)
| BusinessRuleViolation (msg : string).

(** ** Domain layer *)

Record Todo : Type := mkTodo { title : str; id : UUID }.

Definition __post_init__ (self : Todo) : result exn unit :=
  if negb (truthy (title self)) || (len (strip (title self)) =? 0)%Z then
    Raise (InvalidTodoException "Title cannot be empty")
  else if (256 <? len (title self))%Z then
    Raise (InvalidTodoException "Title cannot exceed 256 characters")
  else Ok tt.

(** [Todo(title=title)]: the dataclass stores the title, draws the id from
    [uuid4] (here the argument [uuid4] is the value drawn) and then runs
    [__post_init__]; when that raises, no instance is returned. *)
Definition Todo_new (title' : str) (uuid4 : UUID) : result exn Todo :=
  let self := mkTodo title' uuid4 in
  match __post_init__ self with
  | Ok _ => Ok self
  | Raise e => Raise e
  end.

Definition MAX_TODOS_PER_USER : Z := 10.

Definition enforce_limit (current_todo_count : Z) : result exn unit :=
  if (MAX_TODOS_PER_USER <=? current_todo_count)%Z then
    Raise (TodoLimitReachedException "Cannot create more todos, limit reached")
  else Ok tt.

(** ** Repository interface and its in-memory implementation

    A method of a repository runs on the repository's state and leaves a
    new state beside what it returns. *)
Class TodoRepository (R : Type) : Type := {
  save : Todo -> R -> R * Todo;
  count_all : R -> R * Z
}.

(** [InMemoryTodoRepository]: [_todos] is a dict used as a map only
    (assignment by key and [len]), so a [gmap]. *)
Abbreviation InMemory := (gmap UUID Todo).

Definition InMemory_init : InMemory := ∅.

Definition InMemory_save (todo : Todo) (_todos : InMemory) : InMemory * Todo :=
  (<[id todo := todo]> _todos, todo).

Definition InMemory_count_all (_todos : InMemory) : InMemory * Z :=
  (_todos, Z.of_nat (size _todos)).

#[export] Instance InMemoryTodoRepository : TodoRepository InMemory := {
  save := InMemory_save;
  count_all := InMemory_count_all
}.

(** ** Application layer *)

Record TodoDTO : Type := mkTodoDTO { dto_id : UUID; dto_title : str }.

Section Service.
Context {R : Type} `{TodoRepository R}.

(** [TodoService.create_todo].  Each [except] clause catches its own
    class only; [uuid4] is the identifier the constructor draws. *)
Definition create_todo (title' : str) (uuid4 : UUID) (repository : R)
  : R * result exn TodoDTO :=
  let '(repository, count) := count_all repository in
  match enforce_limit count with
  | Raise (TodoLimitReachedException e) =>
      (repository, Raise (BusinessRuleViolation e))
  | Raise e => (repository, Raise e)
  | Ok _ =>
      match Todo_new title' uuid4 with
      | Raise (InvalidTodoException e) =>
          (repository, Raise (ValidationError e))
      | Raise e => (repository, Raise e)
      | Ok todo =>
          let '(repository, saved) := save todo repository in
          (repository, Ok (mkTodoDTO (id saved) (title saved)))
      end
  end.

(** A sequence of [create_todo] calls on one service, the outcome of each
    call in order. *)
Fixpoint create_todos (calls : list (str * UUID)) (repository : R)
  : R * list (result exn TodoDTO) :=
  match calls with
  | [] => (repository, [])
  | (title', uuid4) :: rest =>
      let '(repository, r) := create_todo title' uuid4 repository in
      let '(repository, rs) := create_todos rest repository in
      (repository, r :: rs)
  end.
End Service.

(** ** Vocabulary of the specification *)

(** Empty or made of whitespace only. *)
Definition whitespace_only (s : str) : Prop :=
  Forall (fun c => isspace c = true) s.

(** At most 256 characters, and something is left after trimming. *)
Definition valid_title (s : str) : Prop :=
  (len s <= 256)%Z /\ strip s <> [].

(** Ten calls with the titles of the repository's test, [Todo 0] to
    [Todo 9], and the repository they leave behind. *)
Definition ten_calls : list (str * UUID) :=
  map (fun i : N => ([84; 111; 100; 111; 32; 48 + i]%N, (1000 + i)%N))
      [0; 1; 2; 3; 4; 5; 6; 7; 8; 9]%N.

Definition full_repository : InMemory :=
  (create_todos ten_calls InMemory_init).1.

(** The eleventh call of the test, with a title of its own. *)
Definition eleven_calls : list (str * UUID) :=
  ten_calls ++ [([84; 111; 100; 111; 32; 49; 49]%N, 2000%N)].

End ServiceLayer.

(* ===================================================================== *)
(** * uow_repo.py *)
(* ===================================================================== *)

Module UowRepo.

(** Identifiers, attribute values and paths are Python [str]s that the file
    only stores and compares, so Rocq strings. *)

(** A JSON document.  An object lists its members as the text does, a
    repeated name included.  [JNum] stands for any number. *)
#[warnings="-register-all"] Inductive json : Type :=
| JNull
| JBool (b : bool)
| JNum (n : Z)
| JStr (s : string)
| JArr (elements : list json)
| JObj (members : list (string * json)).

(** The text of a file, as [json.loads] sees it: not JSON (it raises
    [JSONDecodeError]) or the text of a document.  [json.dumps] and
    [json.loads] are the library's; a text that is JSON is identified with
    the document it denotes. *)
Inductive text : Type :=
| NotJson
| Json (j : json).

Record Entity : Type := mkEntity { attr1 : string; id : option string }.

(** What the file can raise.  [BadRef] is not a Python exception: it marks
    a reference to no object, which Python cannot form; [refs_ok] below
    states that no session holds one. *)
Inductive exn : Type :=
| JSONDecodeError
| AttributeError
| TypeError
| ValidationError
| KeyError (key : string)
| BadRef.

(** The call of [Entity] with the members of [en] as keyword arguments,
    [en] a value decoded from JSON: unpacking needs a mapping; the model
    then requires [attr1] to be a string and [id] to be a string, null or
    absent, and ignores other names. *)
Definition Entity_of (en : json) : result exn Entity :=
  match en with
  | JObj members =>
      let data := dict_of_items members in
      match dict_get "attr1" data with
      | Some (JStr a) =>
          match dict_get "id" data with
          | None | Some JNull => Ok (mkEntity a None)
          | Some (JStr i) => Ok (mkEntity a (Some i))
          | Some _ => Raise ValidationError
          end
      | _ => Raise ValidationError
      end
  | _ => Raise TypeError
  end.

(** [e.model_dump()], the fields in their order of declaration. *)
Definition model_dump (e : Entity) : json :=
  JObj [("attr1", JStr (attr1 e));
        ("id", match id e with Some i => JStr i | None => JNull end)].

(** [json.dumps] writes the key [None] as the name [null]. *)
Definition key_name (k : option string) : string :=
  match k with Some s => s | None => "null" end.

Definition dumps (s : dict (option string) json) : json :=
  JObj (map (fun kv => (key_name kv.1, kv.2)) s).

(** [str(uuid.uuid4())] has 32 lower-case hexadecimal digits in groups of
    8, 4, 4, 4 and 12 separated by hyphens. *)
Definition is_hex (c : Ascii.ascii) : bool :=
  let n := Ascii.nat_of_ascii c in
  ((48 <=? n) && (n <=? 57) || (97 <=? n) && (n <=? 102))%nat.

Fixpoint has_shape (dashes : list bool) (s : string) : bool :=
  match dashes, s with
  | [], EmptyString => true
  | dash :: dashes', String c s' =>
      (if dash then bool_decide (c = "-"%char) else is_hex c)
      && has_shape dashes' s'
  | _, _ => false
  end.

Definition uuid_shape : list bool :=
  replicate 8 false ++ [true] ++ replicate 4 false ++ [true]
  ++ replicate 4 false ++ [true] ++ replicate 4 false ++ [true]
  ++ replicate 12 false.

Definition is_uuid_str (s : string) : bool := has_shape uuid_shape s.

(** ** State

    [Entity] objects are mutable and shared: [add] assigns to the [id] of
    the caller's object and stores that same object.  The [heap] holds the
    objects, a reference is an index into it.  [session] is the one dict
    that the unit of work and its [SpecificRepo] both point to (it is only
    ever changed in place after [__enter__] creates it).

    [files] maps a path to the text of the file there.  Opening is taken
    to fail only for a file that does not exist, when reading; a write
    creates or overwrites the file. *)
Record state : Type := mkState {
  files : gmap string text;
  heap : list Entity;
  session : dict string nat
}.

Definition M (A : Type) : Type := state -> state * result exn A.

Definition ret {A} (a : A) : M A := fun st => (st, Ok a).

Definition bind {A B} (m : M A) (f : A -> M B) : M B :=
  fun st =>
    match m st with
    | (st', Ok a) => f a st'
    | (st', Raise e) => (st', Raise e)
    end.

Notation "'let!' x ':=' m 'in' k" := (bind m (fun x => k))
  (at level 10, x name, m at level 100, k at level 200).
Notation "m >> k" := (bind m (fun _ => k))
  (at level 100, k at level 200, right associativity, only parsing).

Definition raise {A} (e : exn) : M A := fun st => (st, Raise e).

Definition set_session (d : dict string nat) : M unit :=
  fun st => (mkState (files st) (heap st) d, Ok tt).

(** A new object on the heap, as a call of the class creates one. *)
Definition new (e : Entity) : M nat :=
  fun st => (mkState (files st) (heap st ++ [e]) (session st),
             Ok (length (heap st))).

Definition deref (r : nat) : M Entity :=
  fun st => match heap st !! r with
            | Some e => (st, Ok e)
            | None => (st, Raise BadRef)
            end.

(** ** [SpecificRepo] *)

(** [add]; [uuid4] is the string [str(uuid.uuid4())] evaluates to. *)
Definition add (entity : nat) (uuid4 : string) : M string :=
  let! e := deref entity in
  let new_id := uuid4 in
  (fun st => (mkState (files st)
                      (<[entity := mkEntity (attr1 e) (Some new_id)]> (heap st))
                      (dict_set new_id entity (session st)),
              Ok new_id)).

Definition get (entity_id : string) : M nat :=
  fun st => match dict_get entity_id (session st) with
            | Some r => (st, Ok r)
            | None => (st, Raise (KeyError entity_id))
            end.

(** ** [FileUoW] *)

(** The dict comprehension over [j.items()]: one new [Entity] per item, in
    order, under the item's key. *)
Fixpoint load_entities (items : list (string * json)) (acc : dict string nat)
  : M (dict string nat) :=
  match items with
  | [] => ret acc
  | (id_, en) :: rest =>
      match Entity_of en with
      | Raise x => raise x
      | Ok e => let! r := new e in load_entities rest (dict_set id_ r acc)
      end
  end.

Definition _load (file_path : string) : M unit :=
  fun st =>
    match files st !! file_path with
    | None => (st, Ok tt)
    | Some NotJson => (st, Raise JSONDecodeError)
    | Some (Json j) =>
        (set_session [] >>
         match j with
         | JObj members =>
             let! d := load_entities (dict_of_items members) [] in
             fun st' => set_session (dict_update (session st') d) st'
         | _ => raise AttributeError
         end) st
    end.

Definition __enter__ (file_path : string) : M unit :=
  set_session [] >> _load file_path.

Definition rollback (file_path : string) : M unit := _load file_path.

Definition __exit__ (file_path : string) : M unit := rollback file_path.

Definition commit (file_path : string) : M unit :=
  fun st =>
    match mapM (fun r => heap st !! r) (values (session st)) with
    | None => (st, Raise BadRef)
    | Some es =>
        let s := dict_of_items (map (fun e => (id e, model_dump e)) es) in
        (mkState (<[file_path := Json (dumps s)]> (files st))
                 (heap st) (session st), Ok tt)
    end.

(** ** Vocabulary of the specification *)

(** The state with an empty session, as [session.clear()] and the
    assignment of a new dict in [__enter__] leave it. *)
Definition cleared (st : state) : state := mkState (files st) (heap st) [].

(** What a load reads from a file: the items of its top-level object. *)
Definition file_items (f : option text) : dict string json :=
  match f with
  | Some (Json (JObj members)) => dict_of_items members
  | _ => []
  end.

(** The files a load neither rejects nor fails on: no file, or an object
    whose every value makes an [Entity]. *)
Definition loadable (f : option text) : bool :=
  match f with
  | None => true
  | Some (Json (JObj members)) =>
      forallb (fun kv => is_ok (Entity_of kv.2)) (dict_of_items members)
  | Some _ => false
  end.

(** The session holds entity [e] under key [k]. *)
Definition holds (st : state) (k : string) (e : Entity) : Prop :=
  exists r, dict_get k (session st) = Some r /\ heap st !! r = Some e.

(** The session equals the contents of a file: the same keys, and under
    each key the entity that the file's value describes. *)
Definition mirrors (st : state) (f : option text) : Prop :=
  forall k,
    match dict_get k (file_items f) with
    | Some en => exists e, Entity_of en = Ok e /\ holds st k e
    | None => dict_get k (session st) = None
    end.

(** Every reference of the session is to an object. *)
Definition refs_ok (st : state) : Prop :=
  forall k r, (k, r) ∈ session st -> is_Some (heap st !! r).

(** The invariant of the data model: every entity of the session has the
    key it is stored under as its id. *)
Definition session_inv (st : state) : Prop :=
  forall k r, (k, r) ∈ session st ->
    exists e, heap st !! r = Some e /\ id e = Some k.

(** A file in which the entity under each key carries that key as its id,
    as [commit] writes it. *)
Definition keyed (f : option text) : Prop :=
  forall k en e, (k, en) ∈ file_items f -> Entity_of en = Ok e -> id e = Some k.

(** What [uuid4] promises of the identifier it returns at a call of [add]:
    it has the shape of a UUID and is in use neither in the session nor in
    the backing file. *)
Definition uuid4_fresh (uuid4 file_path : string) (st : state) : Prop :=
  is_uuid_str uuid4 = true
  /\ (uuid4 ∉ keys (session st))
  /\ (uuid4 ∉ keys (file_items (files st !! file_path))).

(** The calls of the life cycle of a unit of work, and of its caller, who
    makes entities. *)
Inductive call : Type :=
| Enter
| Exit
| Commit
| Rollback
| Add (entity : nat) (uuid4 : string)
| Get (entity_id : string)
| New (e : Entity).

(** The state a call leaves, whether it returns or raises. *)
Definition run (file_path : string) (c : call) (st : state) : state :=
  match c with
  | Enter => (__enter__ file_path st).1
  | Exit => (__exit__ file_path st).1
  | Commit => (commit file_path st).1
  | Rollback => (rollback file_path st).1
  | Add entity uuid4 => (add entity uuid4 st).1
  | Get entity_id => (get entity_id st).1
  | New e => (new e st).1
  end.

(** The states of a unit of work on [file_path]: it is entered, in any
    program state whose backing file satisfies [ok_file], and then any
    calls that [ok_call] admits follow. *)
Inductive reachable (ok_file : option text -> Prop)
    (ok_call : state -> call -> Prop) (file_path : string) : state -> Prop :=
| reach_enter st0 :
    ok_file (files st0 !! file_path) ->
    is_ok (__enter__ file_path st0).2 = true ->
    reachable ok_file ok_call file_path (__enter__ file_path st0).1
| reach_call st c :
    reachable ok_file ok_call file_path st ->
    ok_call st c ->
    reachable ok_file ok_call file_path (run file_path c st).

Definition any_file (f : option text) : Prop := True.
Definition any_call (st : state) (c : call) : Prop := True.

(** [add] is only given entities that the session does not hold yet. *)
Definition adds_new (st : state) (c : call) : Prop :=
  match c with
  | Add entity _ => entity ∉ values (session st)
  | _ => True
  end.

(** ** Example states *)

Definition db : string := "/tmp/db.json".
Definition id_a : string := "3b241101-e2bb-4255-8caf-4136c566a962".
Definition id_b : string := "7c9e6679-7425-40de-944b-e07fc1f90ae7".

(** A program state with no files and no objects. *)
Definition blank : state := mkState ∅ [] [].

(** [with FileUoW(db) as uow: e = Entity(attr1="xaxa"); uow.repo.add(e)],
    before the scope is left. *)
Definition entered : state := run db Enter blank.
Definition made : state := run db (New (mkEntity "xaxa" None)) entered.
Definition added : state := run db (Add 0 id_a) made.

(** ... followed by [uow.repo.add(e)] once more. *)
Definition added_twice : state := run db (Add 0 id_b) added.

(** ... or followed by [uow.commit()]. *)
Definition committed : state := run db Commit added.

(** A file system in which [db] holds an entity under another key than
    its id. *)
Definition foreign : state :=
  mkState {[ db := Json (JObj [("k", model_dump (mkEntity "xaxa" (Some "i")))]) ]}
          [] [].


End UowRepo.

(* ===================================================================== *)
(** * service_layer.py, external layer *)
(* ===================================================================== *)

Module HttpAdapter.
Import ServiceLayer.

(** A value of the request body, which FastAPI decodes from JSON: a
    string, or something else (null, a boolean, a number, a list, an
    object).  Of a value that is not a string the code only observes its
    truth value, in [not self.title], and that it has no method
    [strip]. *)
Inductive value : Type :=
| VStr (s : str)
| VOther (truth : bool).

(** What the endpoint can raise: an exception of the service or the
    domain, the [KeyError] of a subscript, the [AttributeError] of a
    missing method, or FastAPI's [HTTPException]. *)
Inductive exn : Type :=
| Service (e : ServiceLayer.exn)
| KeyError (key : string)
| AttributeError
| HTTPException (status_code : Z) (detail : string).

Definition lift {A : Type} (r : result ServiceLayer.exn A) : result exn A :=
  match r with
  | Ok a => Ok a
  | Raise e => Raise (Service e)
  end.

(** [Todo(title=v)] for [v] not a string: [__post_init__] raises
    [InvalidTodoException] when [not v], and otherwise fails on
    [v.strip()]. *)
Definition Todo_new_other (truth : bool) : result exn Todo :=
  if negb truth then
    Raise (Service (InvalidTodoException "Title cannot be empty"))
  else Raise AttributeError.

(** [TodoService.create_todo] on a value of the request; on a string it
    is [ServiceLayer.create_todo]. *)
Definition service_create_todo (title' : value) (uuid4 : UUID)
    (repository : InMemory) : InMemory * result exn TodoDTO :=
  match title' with
  | VStr t =>
      let '(repository, r) := create_todo t uuid4 repository in
      (repository, lift r)
  | VOther truth =>
      let '(repository, count) := count_all repository in
      match enforce_limit count with
      | Raise (TodoLimitReachedException e) =>
          (repository, Raise (Service (BusinessRuleViolation e)))
      | Raise e => (repository, Raise (Service e))
      | Ok _ =>
          match Todo_new_other truth with
          | Raise (Service (InvalidTodoException e)) =>
              (repository, Raise (Service (ValidationError e)))
          | Raise e => (repository, Raise e)
          | Ok todo =>
              let '(repository, saved) := save todo repository in
              (repository, Ok (mkTodoDTO (id saved) (title saved)))
          end
      end
  end.

(** [create_service_container()]: a service on a new in-memory
    repository. *)
Definition create_service_container : InMemory := InMemory_init.

(** The dict that the endpoint returns; the route sends it with status
    201. *)
Record created : Type := mkCreated { body_id : UUID; body_title : str }.

(** The endpoint [POST /todos], in the source the function [create_todo]
    of the module (named after its route here, the service's method
    having the name).  [todo_service] is the repository of the one
    service of the module; the subscript [request["title"]] is inside the
    [try], whose clauses catch the two application errors only. *)
Definition post_todos (request : dict string value) (uuid4 : UUID)
    (todo_service : InMemory) : InMemory * result exn created :=
  match dict_get "title" request with
  | None => (todo_service, Raise (KeyError "title"))
  | Some v =>
      match service_create_todo v uuid4 todo_service with
      | (todo_service, Ok todo) =>
          (todo_service, Ok (mkCreated (dto_id todo) (dto_title todo)))
      | (todo_service, Raise (Service (ValidationError e))) =>
          (todo_service, Raise (HTTPException 400 e))
      | (todo_service, Raise (Service (BusinessRuleViolation e))) =>
          (todo_service, Raise (HTTPException 400 e))
      | (todo_service, Raise e) => (todo_service, Raise e)
      end
  end.

End HttpAdapter.

(* ===================================================================== *)
(** * Facts about [dict] *)
(* ===================================================================== *)

Module PyFacts.

Section DictFacts.
Context {K V : Type} `{EqDecision K}.
Implicit Types (d items : list (K * V)) (k : K) (v : V).

Lemma dict_get_set k k' v d :
  dict_get k (dict_set k' v d) =
    if decide (k = k') then Some v else dict_get k d.
Proof.
  induction d as [|[k0 v0] d IH]; simpl.
  - done.
  - destruct (decide (k' = k0)) as [->|Hne]; simpl.
    + destruct (decide (k = k0)); done.
    + destruct (decide (k = k0)) as [->|]; [|done].
      by rewrite decide_False by done.
Qed.

Lemma dict_get_update k items : forall d,
  dict_get k (dict_update d items) =
    match last_item k items with
    | Some v => Some v
    | None => dict_get k d
    end.
Proof.
  unfold dict_update.
  induction items as [|[k0 v0] items IH]; intros d; simpl; [done|].
  rewrite IH. destruct (last_item k items); [done|].
  rewrite dict_get_set. by destruct (decide (k = k0)).
Qed.

Lemma dict_get_of_items k items :
  dict_get k (dict_of_items items) = last_item k items.
Proof.
  unfold dict_of_items. rewrite dict_get_update.
  by destruct (last_item k items).
Qed.

Lemma dict_get_None k d : dict_get k d = None <-> k ∉ keys d.
Proof.
  unfold keys. induction d as [|[k0 v0] d IH]; simpl.
  - split; [intros _; apply not_elem_of_nil|done].
  - rewrite not_elem_of_cons. destruct (decide (k = k0)); [|tauto].
    split; [done|tauto].
Qed.


Lemma elem_of_dict_get k v d :
  NoDup (keys d) -> (k, v) ∈ d -> dict_get k d = Some v.
Proof.
  unfold keys. induction d as [|[k0 v0] d IH]; simpl.
  - intros _ Hin. by apply elem_of_nil in Hin.
  - intros Hnd Hin. apply NoDup_cons in Hnd as [Hk0 Hnd].
    apply elem_of_cons in Hin as [[= -> ->] | Hin].
    + by rewrite decide_True.
    + destruct (decide (k = k0)) as [->|]; [|auto].
      exfalso. apply Hk0. apply list_elem_of_fmap. by exists (k0, v).
Qed.

Lemma elem_of_dict_set k v k' v' d :
  (k, v) ∈ dict_set k' v' d -> (k, v) = (k', v') \/ (k, v) ∈ d.
Proof.
  induction d as [|[k0 v0] d IH]; simpl.
  - intros Hin. apply list_elem_of_singleton in Hin. by left.
  - destruct (decide (k' = k0)) as [->|Hne]; intros Hin.
    + apply elem_of_cons in Hin as [Hin | Hin]; [by left|].
      right. by right.
    + apply elem_of_cons in Hin as [Hin | Hin].
      * right. rewrite Hin. left.
      * destruct (IH Hin) as [?|?]; [by left|]. right. by right.
Qed.

Lemma elem_of_dict_update k v items : forall d,
  (k, v) ∈ dict_update d items -> (k, v) ∈ d \/ (k, v) ∈ items.
Proof.
  unfold dict_update.
  induction items as [|[k0 v0] items IH]; intros d; simpl; [by left|].
  intros Hin. destruct (IH _ Hin) as [Hd | Hi].
  - apply elem_of_dict_set in Hd as [-> | Hd]; [right; left|by left].
  - right. by right.
Qed.

Lemma elem_of_dict_of_items k v items :
  (k, v) ∈ dict_of_items items -> (k, v) ∈ items.
Proof.
  intros Hin. apply elem_of_dict_update in Hin as [Hin | Hin]; [|done].
  by apply elem_of_nil in Hin.
Qed.


Lemma keys_dict_set k v d :
  keys (dict_set k v d) = if decide (k ∈ keys d) then keys d
                          else keys d ++ [k].
Proof.
  unfold keys. induction d as [|[k0 v0] d IH]; [done|].
  cbn [dict_set]. destruct (decide (k = k0)) as [->|Hne].
  - rewrite !fmap_cons. cbn [fst]. by rewrite decide_True by left.
  - rewrite !fmap_cons. cbn [fst]. rewrite IH.
    destruct (decide (k ∈ d.*1)) as [Hin|Hnin].
    + by rewrite decide_True by (by right).
    + rewrite decide_False; [done|]. by rewrite not_elem_of_cons.
Qed.

Lemma NoDup_keys_dict_set k v d :
  NoDup (keys d) -> NoDup (keys (dict_set k v d)).
Proof.
  intros Hnd. rewrite keys_dict_set. destruct (decide (k ∈ keys d)); [done|].
  apply NoDup_app. split; [done|]. split.
  - intros x Hx Hx'. apply list_elem_of_singleton in Hx'. by subst.
  - apply NoDup_singleton.
Qed.

Lemma NoDup_keys_dict_update items : forall d,
  NoDup (keys d) -> NoDup (keys (dict_update d items)).
Proof.
  unfold dict_update.
  induction items as [|[k0 v0] items IH]; intros d Hnd; simpl; [done|].
  apply IH. by apply NoDup_keys_dict_set.
Qed.

Lemma NoDup_keys_dict_of_items items : NoDup (keys (dict_of_items items)).
Proof. apply NoDup_keys_dict_update. apply NoDup_nil_2. Qed.

Lemma last_item_elem_of k v items : last_item k items = Some v -> (k, v) ∈ items.
Proof.
  induction items as [|[k0 v0] items IH]; simpl; [done|].
  destruct (last_item k items) as [w|].
  - intros [= ->]. right. auto.
  - destruct (decide (k = k0)) as [->|]; [|done]. intros [= ->]. left.
Qed.

Lemma last_item_None k items : last_item k items = None <-> k ∉ keys items.
Proof.
  unfold keys. induction items as [|[k0 v0] items IH]; simpl.
  - split; [intros _; apply not_elem_of_nil|done].
  - rewrite not_elem_of_cons. destruct (last_item k items) as [w|].
    + split; [done|]. intros [_ Hnin]. by apply IH in Hnin.
    + destruct (decide (k = k0)); [|tauto]. split; [done|tauto].
Qed.

Lemma last_item_NoDup k d :
  NoDup (keys d) -> last_item k d = dict_get k d.
Proof.
  unfold keys. induction d as [|[k0 v0] d IH]; simpl; [done|].
  intros Hnd. apply NoDup_cons in Hnd as [Hk0 Hnd].
  rewrite (IH Hnd). destruct (decide (k = k0)) as [->|].
  - apply dict_get_None in Hk0. by rewrite Hk0.
  - by destruct (dict_get k d).
Qed.

End DictFacts.


End PyFacts.

(* ===================================================================== *)
(** * Properties of service_layer.py *)
(* ===================================================================== *)

Module ServiceLayerSpec.
Import ServiceLayer.

(** ** Trimming *)

Lemma lstrip_whitespace_only (s : str) :
  whitespace_only (lstrip s) <-> whitespace_only s.
Proof.
  unfold whitespace_only. induction s as [|c s IH]; simpl; [done|].
  destruct (isspace c) eqn:Hc.
  - rewrite IH. split; [by constructor|by inversion 1].
  - done.
Qed.

Lemma lstrip_nil (s : str) : lstrip s = [] <-> whitespace_only s.
Proof.
  unfold whitespace_only. induction s as [|c s IH]; simpl.
  - split; [constructor|done].
  - destruct (isspace c) eqn:Hc.
    + rewrite IH. split; [by constructor|by inversion 1].
    + split; [done|]. inversion 1; congruence.
Qed.

Lemma strip_nil (s : str) : strip s = [] <-> whitespace_only s.
Proof.
  unfold strip, rstrip.
  rewrite <- (lstrip_whitespace_only s).
  set (t := lstrip s).
  split.
  - intros H. apply (f_equal (@rev N)) in H. rewrite rev_involutive in H.
    simpl in H. apply lstrip_nil in H. unfold whitespace_only in *.
    apply Forall_rev in H. by rewrite rev_involutive in H.
  - intros H. unfold whitespace_only in H. apply Forall_rev in H.
    apply lstrip_nil in H. by rewrite H.
Qed.

Lemma valid_title_dec (s : str) : {valid_title s} + {~ valid_title s}.
Proof.
  unfold valid_title.
  destruct (decide (len s <= 256)%Z); [|right; tauto].
  destruct (decide (strip s = [])); [right; tauto|left; tauto].
Qed.

(** ** The constructor *)

Lemma Todo_new_valid (t : str) (u : UUID) :
  valid_title t -> Todo_new t u = Ok (mkTodo t u).
Proof.
  intros [Hlen Hne]. unfold Todo_new, __post_init__; simpl.
  destruct t as [|c t]; [done|]. simpl truthy. simpl negb. simpl orb.
  destruct (len (strip (c :: t)) =? 0)%Z eqn:H0.
  - apply Z.eqb_eq in H0. unfold len in H0.
    destruct (strip (c :: t)); [done|simpl in H0; lia].
  - destruct (256 <? len (c :: t))%Z eqn:H1; [|done].
    apply Z.ltb_lt in H1. lia.
Qed.

Lemma Todo_new_invalid (t : str) (u : UUID) :
  ~ valid_title t ->
  Todo_new t u = Raise (InvalidTodoException "Title cannot be empty")
  \/ Todo_new t u =
       Raise (InvalidTodoException "Title cannot exceed 256 characters").
Proof.
  intros Hn. unfold Todo_new, __post_init__; simpl.
  destruct (negb (truthy t) || (len (strip t) =? 0)%Z) eqn:H0; [by left|].
  destruct (256 <? len t)%Z eqn:H1; [by right|].
  exfalso. apply Hn. apply orb_false_iff in H0 as [_ H0].
  apply Z.eqb_neq in H0. apply Z.ltb_ge in H1.
  split; [done|]. intros E. rewrite E in H0. done.
Qed.

(** ** [create_todo] on the in-memory repository *)

Lemma create_todo_full (t : str) (u : UUID) (m : InMemory) :
  10 <= size m ->
  create_todo t u m =
    (m, Raise (BusinessRuleViolation "Cannot create more todos, limit reached")).
Proof.
  intros Hm. unfold create_todo; simpl. unfold enforce_limit.
  destruct (MAX_TODOS_PER_USER <=? Z.of_nat (size m))%Z eqn:E; [done|].
  apply Z.leb_gt in E. unfold MAX_TODOS_PER_USER in E. lia.
Qed.

Lemma enforce_limit_below (n : Z) : (n < 10)%Z -> enforce_limit n = Ok tt.
Proof.
  intros Hn. unfold enforce_limit.
  destruct (MAX_TODOS_PER_USER <=? n)%Z eqn:E; [|done].
  apply Z.leb_le in E. unfold MAX_TODOS_PER_USER in E. lia.
Qed.

Lemma create_todo_invalid (t : str) (u : UUID) (m : InMemory) :
  size m < 10 -> ~ valid_title t ->
  exists msg, create_todo t u m = (m, Raise (ValidationError msg)).
Proof.
  intros Hm Ht. unfold create_todo; simpl.
  rewrite enforce_limit_below by lia.
  destruct (Todo_new_invalid t u Ht) as [-> | ->]; eauto.
Qed.

Lemma create_todo_valid (t : str) (u : UUID) (m : InMemory) :
  size m < 10 -> valid_title t ->
  create_todo t u m = (<[u := mkTodo t u]> m, Ok (mkTodoDTO u t)).
Proof.
  intros Hm Ht. unfold create_todo; simpl.
  rewrite enforce_limit_below by lia.
  by rewrite Todo_new_valid.
Qed.

(** The limit is checked first whatever the repository: when [count_all]
    answers ten or more, neither the title nor [save] is looked at. *)
Lemma create_todo_limit_first {R : Type} `{TodoRepository R}
    (t : str) (u : UUID) (repository : R) :
  (10 <= (count_all repository).2)%Z ->
  create_todo t u repository =
    ((count_all repository).1,
     Raise (BusinessRuleViolation "Cannot create more todos, limit reached")).
Proof.
  intros Hc. unfold create_todo.
  destruct (count_all repository) as [r c]; simpl in *.
  unfold enforce_limit.
  destruct (MAX_TODOS_PER_USER <=? c)%Z eqn:E; [done|].
  apply Z.leb_gt in E. unfold MAX_TODOS_PER_USER in E. lia.
Qed.

Lemma full_repository_size : size full_repository = 10.
Proof. vm_compute. reflexivity. Qed.

(** ** The claims *)

(** C1. In [create_todo] the limit policy is evaluated before the entity
    is constructed: on a repository that holds at least 10 entities, for
    every title, valid or not, the call raises [BusinessRuleViolation]
    (with the policy's message) and so never [ValidationError]. *)
Theorem C1_limit_before_validation (m : InMemory) (t : str) (u : UUID) :
  10 <= size m ->
  (create_todo t u m).2 =
    Raise (BusinessRuleViolation "Cannot create more todos, limit reached")
  /\ forall msg, (create_todo t u m).2 <> Raise (ValidationError msg).
Proof.
  intros Hm. rewrite create_todo_full by done. simpl. split; [done|].
  intros msg. discriminate.
Qed.

(** A full repository and the empty title, which the constructor alone
    would reject. *)
Lemma C1_witness :
  10 <= size full_repository
  /\ ~ valid_title []
  /\ (create_todo [] 7%N full_repository).2 =
       Raise (BusinessRuleViolation "Cannot create more todos, limit reached").
Proof.
  assert (Hs : 10 <= size full_repository)
    by (rewrite full_repository_size; lia).
  split; [exact Hs|]. split.
  - intros [_ Hne]. apply Hne. reflexivity.
  - exact (proj1 (C1_limit_before_validation full_repository [] 7%N Hs)).
Defined.

(** C3. [Todo] construction succeeds, with the title stored as given,
    exactly when the title has at most 256 characters and is not empty
    after trimming; otherwise, that is when the title is empty, made of
    whitespace only or longer than 256 characters, it raises
    [InvalidTodoException] and returns no instance. *)
Theorem C3_Todo_construction (t : str) (u : UUID) :
  (valid_title t <-> exists todo, Todo_new t u = Ok todo)
  /\ (forall todo, Todo_new t u = Ok todo -> title todo = t /\ id todo = u)
  /\ (~ valid_title t <-> exists msg,
        Todo_new t u = Raise (InvalidTodoException msg))
  /\ (~ valid_title t <->
        t = [] \/ whitespace_only t \/ (256 < len t)%Z).
Proof.
  destruct (valid_title_dec t) as [Hv | Hn].
  - pose proof (Todo_new_valid t u Hv) as E. rewrite E.
    split; [split; eauto|]. split.
    { intros todo [= <-]. done. }
    split.
    + split; [done|]. intros [msg ?]. discriminate.
    + split; [done|]. destruct Hv as [Hlen Hne].
      intros [-> | [Hw | Hl]] _; [by apply Hne| |lia].
      by apply Hne, strip_nil.
  - split.
    { split; [done|]. intros [todo E].
      destruct (Todo_new_invalid t u Hn) as [E' | E']; congruence. }
    split.
    { intros todo E.
      destruct (Todo_new_invalid t u Hn) as [E' | E']; congruence. }
    split.
    + split; [|done]. intros _.
      destruct (Todo_new_invalid t u Hn) as [-> | ->]; eauto.
    + split; [|done]. intros _. unfold valid_title in Hn.
      destruct (decide (len t <= 256)%Z); [|right; right; lia].
      destruct (decide (strip t = [])) as [E|]; [|tauto].
      right; left. by apply strip_nil.
Qed.

(** Instances: an ordinary title, a title of spaces, and one of 257
    characters. *)
Lemma C3_witness :
  (exists todo, Todo_new [66; 117; 121]%N 1%N = Ok todo)
  /\ (exists msg, Todo_new [32; 9; 32]%N 1%N = Raise (InvalidTodoException msg))
  /\ (exists msg,
        Todo_new (replicate 257 120%N) 1%N = Raise (InvalidTodoException msg)).
Proof.
  split; [|split].
  - apply (proj1 (C3_Todo_construction [66; 117; 121]%N 1%N)).
    split; [vm_compute; discriminate | vm_compute; discriminate].
  - apply (proj1 (proj1 (proj2 (proj2 (C3_Todo_construction [32; 9; 32]%N 1%N))))).
    intros [_ Hne]. apply Hne. reflexivity.
  - apply (proj1 (proj1 (proj2 (proj2
             (C3_Todo_construction (replicate 257 120%N) 1%N))))).
    intros [Hlen _]. vm_compute in Hlen. apply Hlen. reflexivity.
Defined.

(** C8. [enforce_limit] raises [TodoLimitReachedException] exactly when
    the count is at least 10 and otherwise returns without effect; being a
    function of the count alone, its outcome depends on nothing else. *)
Theorem C8_enforce_limit (current_count : Z) :
  ((10 <= current_count)%Z <->
     enforce_limit current_count =
       Raise (TodoLimitReachedException "Cannot create more todos, limit reached"))
  /\ ((current_count < 10)%Z <-> enforce_limit current_count = Ok tt).
Proof.
  unfold enforce_limit, MAX_TODOS_PER_USER.
  destruct (10 <=? current_count)%Z eqn:E.
  - apply Z.leb_le in E. split; split; try done; lia.
  - apply Z.leb_gt in E. split; split; try done; lia.
Qed.

(** Outcomes of a run of calls with valid titles and identifiers that are
    new to the repository and pairwise distinct, from any repository
    state: a call succeeds as long as fewer than ten entities are held. *)
Lemma create_todos_outcomes (calls : list (str * UUID)) :
  forall m : InMemory,
  Forall (fun c => valid_title c.1) calls ->
  NoDup calls.*2 ->
  (forall u, u ∈ calls.*2 -> m !! u = None) ->
  forall i t u, calls !! i = Some (t, u) ->
  (create_todos calls m).2 !! i =
    Some (if decide (size m + i < 10) then Ok (mkTodoDTO u t)
          else Raise (BusinessRuleViolation
                        "Cannot create more todos, limit reached")).
Proof.
  induction calls as [|[t0 u0] rest IH]; intros m Hv Hnd Hfresh i t u Hi.
  { by destruct i. }
  apply Forall_cons in Hv as [Hv0 Hv]. simpl in Hv0.
  simpl in Hnd. apply NoDup_cons in Hnd as [Hu0 Hnd].
  cbn [create_todos].
  destruct (decide (size m < 10)) as [Hm | Hm].
  - rewrite create_todo_valid by done.
    set (m' := <[u0 := mkTodo t0 u0]> m).
    assert (Hsize : size m' = S (size m)).
    { apply map_size_insert_None, Hfresh. simpl. left. }
    assert (Hfresh' : forall v, v ∈ rest.*2 -> m' !! v = None).
    { intros v Hvin. unfold m'. rewrite lookup_insert_ne.
      - apply Hfresh. simpl. by right.
      - intros ->. done. }
    specialize (IH m' Hv Hnd Hfresh').
    destruct (create_todos rest m') as [m'' rs] eqn:E. simpl in *.
    destruct i as [|j]; simpl in *.
    + injection Hi as -> ->. by rewrite decide_True by lia.
    + rewrite (IH j t u Hi). rewrite Hsize.
      destruct (decide (S (size m) + j < 10)), (decide (size m + S j < 10));
        try done; lia.
  - rewrite create_todo_full by lia.
    assert (Hfresh' : forall v, v ∈ rest.*2 -> m !! v = None).
    { intros v Hvin. apply Hfresh. simpl. by right. }
    specialize (IH m Hv Hnd Hfresh').
    destruct (create_todos rest m) as [m'' rs] eqn:E. simpl in *.
    destruct i as [|j]; simpl in *.
    + by rewrite decide_False by lia.
    + rewrite (IH j t u Hi).
      rewrite !decide_False by lia. done.
Qed.

(** C5. In a sequence of [create_todo] calls with valid titles on a fresh
    repository (the identifiers drawn being pairwise distinct, as [uuid4]
    promises), each of the first 10 calls succeeds and returns its title
    under its identifier, and the 11th and every later call raises
    [BusinessRuleViolation] with the message of [TodoLimitReachedException];
    so does any call made on a repository that holds 10 entities. *)
Theorem C5_ten_then_limit (calls : list (str * UUID)) :
  Forall (fun c => valid_title c.1) calls ->
  NoDup calls.*2 ->
  (forall i t u, calls !! i = Some (t, u) ->
     (i < 10 ->
      (create_todos calls InMemory_init).2 !! i = Some (Ok (mkTodoDTO u t)))
     /\ (10 <= i ->
         (create_todos calls InMemory_init).2 !! i =
           Some (Raise (BusinessRuleViolation
                          "Cannot create more todos, limit reached"))))
  /\ (forall (m : InMemory) t u, size m = 10 ->
        (create_todo t u m).2 =
          Raise (BusinessRuleViolation
                   "Cannot create more todos, limit reached")).
Proof.
  intros Hv Hnd. split.
  - intros i t u Hi.
    pose proof (create_todos_outcomes calls InMemory_init Hv Hnd
                  (fun v _ => lookup_empty v) i t u Hi) as E.
    assert (Hz : size InMemory_init = 0) by apply map_size_empty.
    rewrite Hz in E. simpl in E.
    split; intros Hlt; rewrite E.
    + by rewrite decide_True by lia.
    + by rewrite decide_False by lia.
  - intros m t u Hm. rewrite create_todo_full by lia. done.
Qed.

Lemma eleven_calls_valid : Forall (fun c => valid_title c.1) eleven_calls.
Proof.
  unfold eleven_calls, ten_calls. simpl.
  repeat (apply Forall_cons; split;
          [split; [vm_compute; discriminate | vm_compute; discriminate]|]).
  apply Forall_nil_2.
Qed.

Lemma eleven_calls_distinct : NoDup eleven_calls.*2.
Proof. apply (bool_decide_unpack _). vm_compute. reflexivity. Qed.

(** The test of the repository: [Todo 0] to [Todo 9] succeed, the next
    call is refused. *)
Lemma C5_witness :
  (create_todos eleven_calls InMemory_init).2 !! 9 =
    Some (Ok (mkTodoDTO 1009%N [84; 111; 100; 111; 32; 57]%N))
  /\ (create_todos eleven_calls InMemory_init).2 !! 10 =
       Some (Raise (BusinessRuleViolation
                      "Cannot create more todos, limit reached")).
Proof.
  pose proof (proj1 (C5_ten_then_limit eleven_calls
                       eleven_calls_valid eleven_calls_distinct)) as H.
  split.
  - apply (H 9 [84; 111; 100; 111; 32; 57]%N 1009%N); [reflexivity | lia].
  - apply (H 10 [84; 111; 100; 111; 32; 49; 49]%N 2000%N); [reflexivity | lia].
Defined.

(** C9. [save] on the in-memory repository is an upsert keyed by the
    entity's identifier and is idempotent: it returns the entity, saving
    the same entity again changes nothing, the entity is then held under
    its identifier whether or not one was held there before, the other
    entries are untouched, and the number of entries grows by one only
    when the identifier is new.  [count_all] returns the number of
    entities held and leaves the repository as it is. *)
Theorem C9_save_upsert_count (todo : Todo) (m : InMemory) :
  (save todo m).2 = todo
  /\ (save todo (save todo m).1).1 = (save todo m).1
  /\ (save todo m).1 !! id todo = Some todo
  /\ (forall k, k <> id todo -> (save todo m).1 !! k = m !! k)
  /\ (is_Some (m !! id todo) -> size (save todo m).1 = size m)
  /\ (m !! id todo = None -> size (save todo m).1 = S (size m))
  /\ count_all m = (m, Z.of_nat (length (map_to_list m))).
Proof.
  simpl. unfold InMemory_save, InMemory_count_all; simpl.
  split; [done|]. split; [apply insert_insert_eq|].
  split; [apply lookup_insert_eq|].
  split; [intros k Hk; by apply lookup_insert_ne|].
  split; [|split].
  - intros [old Hold].
    rewrite <- (insert_delete_id m (id todo) old Hold) at 2.
    rewrite <- (insert_delete_eq m (id todo) todo).
    rewrite !map_size_insert_None by apply lookup_delete_eq. done.
  - apply map_size_insert_None.
  - by rewrite length_map_to_list.
Qed.

(** C10. When [create_todo] raises, the repository is as it was before
    the call: nothing was saved and [count_all] answers as before.  What
    it raises is a [ValidationError] or a [BusinessRuleViolation]. *)
Theorem C10_failure_leaves_repository
    (m : InMemory) (t : str) (u : UUID) (e : exn) :
  (create_todo t u m).2 = Raise e ->
  (create_todo t u m).1 = m
  /\ count_all (create_todo t u m).1 = count_all m
  /\ ((exists msg, e = ValidationError msg)
      \/ (exists msg, e = BusinessRuleViolation msg)).
Proof.
  destruct (decide (size m < 10)) as [Hm | Hm].
  - destruct (valid_title_dec t) as [Hv | Hn].
    + rewrite create_todo_valid by done. discriminate.
    + destruct (create_todo_invalid t u m Hm Hn) as [msg ->]. simpl.
      intros [= <-]. eauto.
  - rewrite create_todo_full by lia. simpl. intros [= <-]. eauto.
Qed.

(** Both ways of failing: an empty title on an empty repository, and any
    title on a full one. *)
Lemma C10_witness :
  (create_todo [] 1%N InMemory_init).1 = InMemory_init
  /\ (create_todo [66]%N 1%N full_repository).1 = full_repository.
Proof.
  split.
  - exact (proj1 (C10_failure_leaves_repository InMemory_init [] 1%N
                    (ValidationError "Title cannot be empty") eq_refl)).
  - refine (proj1 (C10_failure_leaves_repository full_repository [66]%N 1%N
                    (BusinessRuleViolation
                       "Cannot create more todos, limit reached") _)).
    vm_compute. reflexivity.
Defined.

End ServiceLayerSpec.

(* ===================================================================== *)
(** * Properties of uow_repo.py *)
(* ===================================================================== *)

Module UowRepoSpec.
Import PyFacts UowRepo.

(** ** Entities and JSON *)

Lemma Entity_of_model_dump (e : Entity) : Entity_of (model_dump e) = Ok e.
Proof. by destruct e as [a [i|]]. Qed.



(** ** The comprehension of [_load] *)

(** It leaves files and session alone, and only adds objects. *)
Lemma load_entities_frame (items : list (string * json)) :
  forall acc st,
    files (load_entities items acc st).1 = files st
    /\ session (load_entities items acc st).1 = session st
    /\ exists news, heap (load_entities items acc st).1 = heap st ++ news.
Proof.
  induction items as [|[k en] items IH]; intros acc st; simpl.
  - repeat split; try done. exists []. by rewrite app_nil_r.
  - destruct (Entity_of en) as [e|x]; simpl.
    + unfold bind, new. simpl.
      destruct (IH (dict_set k (length (heap st)) acc)
                   (mkState (files st) (heap st ++ [e]) (session st)))
        as (Hf & Hs & news & Hh).
      simpl in *. repeat split; try done.
      exists ([e] ++ news). by rewrite Hh, app_assoc.
    + repeat split; try done. exists []. by rewrite app_nil_r.
Qed.

(** It returns exactly when every value makes an [Entity]. *)
Lemma load_entities_is_ok (items : list (string * json)) :
  forall acc st,
    is_ok (load_entities items acc st).2 =
      forallb (fun kv => is_ok (Entity_of kv.2)) items.
Proof.
  induction items as [|[k en] items IH]; intros acc st; simpl; [done|].
  destruct (Entity_of en) as [e|x]; simpl; [|done].
  unfold bind, new. simpl. apply IH.
Qed.

(** What the dict it returns holds. *)
Lemma load_entities_spec (items : list (string * json)) :
  forall acc st st' d,
    load_entities items acc st = (st', Ok d) ->
    (forall k r, (k, r) ∈ d ->
       (k, r) ∈ acc
       \/ exists en e, (k, en) ∈ items /\ Entity_of en = Ok e
                       /\ heap st' !! r = Some e)
    /\ (forall k,
          match last_item k items with
          | Some en => exists r e, dict_get k d = Some r
                                    /\ Entity_of en = Ok e
                                    /\ heap st' !! r = Some e
          | None => dict_get k d = dict_get k acc
          end).
Proof.
  induction items as [|[k0 en0] items IH]; intros acc st st' d; simpl.
  - intros [= <- <-]. split; [by left|done].
  - destruct (Entity_of en0) as [e0|x] eqn:E0; [|done].
    unfold bind, new. simpl.
    set (st1 := mkState (files st) (heap st ++ [e0]) (session st)).
    set (acc1 := dict_set k0 (length (heap st)) acc).
    intros Hrun.
    destruct (IH acc1 st1 st' d Hrun) as [Hin Hget].
    destruct (load_entities_frame items acc1 st1) as (_ & _ & news & Hh).
    rewrite Hrun in Hh. simpl in Hh.
    assert (H0 : heap st' !! length (heap st) = Some e0).
    { rewrite Hh, <- app_assoc. rewrite lookup_app_r by lia.
      by rewrite Nat.sub_diag. }
    split.
    + intros k r Hkr. destruct (Hin k r Hkr) as [Hacc | (en & e & ? & ? & ?)].
      * apply elem_of_dict_set in Hacc as [[= -> ->] | Hacc]; [|by left].
        right. exists en0, e0. split; [left|done].
      * right. exists en, e. split; [by right|done].
    + intros k. specialize (Hget k).
      destruct (last_item k items) as [en|]; [done|].
      unfold acc1 in Hget. rewrite dict_get_set in Hget.
      destruct (decide (k = k0)) as [->|]; [|done].
      exists (length (heap st)), e0. done.
Qed.

Lemma load_entities_NoDup (items : list (string * json)) :
  forall acc st st' d,
    load_entities items acc st = (st', Ok d) ->
    NoDup (keys acc) -> NoDup (keys d).
Proof.
  induction items as [|[k0 en0] items IH]; intros acc st st' d; simpl.
  - by intros [= <- <-].
  - destruct (Entity_of en0) as [e0|x]; [|done].
    unfold bind, new. simpl. intros Hrun Hnd.
    eapply IH; [exact Hrun|]. by apply NoDup_keys_dict_set.
Qed.

(** ** [_load] *)

(** The five ways through [_load]. *)
Lemma _load_cases (p : string) (st : state) :
  (files st !! p = None /\ _load p st = (st, Ok tt))
  \/ (files st !! p = Some NotJson /\ _load p st = (st, Raise JSONDecodeError))
  \/ (exists j, files st !! p = Some (Json j) /\ file_items (Some (Json j)) = []
                /\ loadable (Some (Json j)) = false
                /\ _load p st = (cleared st, Raise AttributeError))
  \/ (exists m st2 x, files st !! p = Some (Json (JObj m))
         /\ load_entities (dict_of_items m) [] (cleared st) = (st2, Raise x)
         /\ _load p st = (st2, Raise x))
  \/ (exists m st2 d, files st !! p = Some (Json (JObj m))
         /\ load_entities (dict_of_items m) [] (cleared st) = (st2, Ok d)
         /\ _load p st =
              (mkState (files st2) (heap st2) (dict_update (session st2) d),
               Ok tt)).
Proof.
  unfold _load. destruct (files st !! p) as [[|j]|] eqn:Hf.
  - right; left. done.
  - destruct j as [| b | n | s | l | m];
      try (right; right; left; eexists; repeat split; done).
    unfold bind, set_session. fold (cleared st).
    destruct (load_entities (dict_of_items m) [] (cleared st))
      as [st2 [d|x]] eqn:E.
    + do 4 right. exists m, st2, d. done.
    + do 3 right. left. exists m, st2, x. done.
  - left. done.
Qed.

Lemma _load_files (p : string) (st : state) : files (_load p st).1 = files st.
Proof.
  destruct (_load_cases p st)
    as [[_ ->] | [[_ ->] | [(j & _ & _ & _ & ->)
       | [(m & st2 & x & _ & E & ->) | (m & st2 & d & _ & E & ->)]]]];
    try done; simpl;
    destruct (load_entities_frame (dict_of_items m) [] (cleared st))
      as (Hfiles & _); by rewrite E in Hfiles.
Qed.

(** Whether [_load] returns is decided by the file alone. *)
Lemma _load_is_ok (p : string) (st : state) :
  is_ok (_load p st).2 = loadable (files st !! p).
Proof.
  destruct (_load_cases p st)
    as [[Hf ->] | [[Hf ->] | [(j & Hf & _ & Hl & ->)
       | [(m & st2 & x & Hf & E & ->) | (m & st2 & d & Hf & E & ->)]]]];
    rewrite Hf; simpl; try done;
    rewrite <- (load_entities_is_ok (dict_of_items m) [] (cleared st));
    by rewrite E.
Qed.

(** Without a file [_load] does nothing at all. *)
Lemma _load_missing (p : string) (st : state) :
  files st !! p = None -> _load p st = (st, Ok tt).
Proof. intros Hf. unfold _load. by rewrite Hf. Qed.

(** What the session is after a load of an existing file that returns:
    each reference is to the entity some item of the file describes, and
    the session equals the contents of the file. *)
Lemma _load_existing (p : string) (st : state) :
  files st !! p <> None ->
  is_ok (_load p st).2 = true ->
  (forall k r, (k, r) ∈ session (_load p st).1 ->
     exists en e, (k, en) ∈ file_items (files st !! p)
                  /\ Entity_of en = Ok e
                  /\ heap (_load p st).1 !! r = Some e)
  /\ mirrors (_load p st).1 (files st !! p).
Proof.
  intros Hsome Hok.
  destruct (_load_cases p st)
    as [[Hf E] | [[Hf E] | [(j & Hf & _ & _ & E)
       | [(m & st2 & x & Hf & El & E) | (m & st2 & d & Hf & El & E)]]]];
    rewrite E in Hok |- *; try done.
  rewrite Hf. simpl.
  destruct (load_entities_spec _ _ _ _ _ El) as [Hin Hget].
  destruct (load_entities_frame (dict_of_items m) [] (cleared st))
    as (_ & Hs & _).
  rewrite El in Hs. simpl in Hs. rewrite Hs.
  split.
  - intros k r Hkr. apply elem_of_dict_update in Hkr as [Hkr | Hkr].
    { by apply elem_of_nil in Hkr. }
    destruct (Hin k r Hkr) as [Hacc | H]; [|done].
    by apply elem_of_nil in Hacc.
  - intros k. unfold holds. simpl.
    specialize (Hget k).
    rewrite last_item_NoDup in Hget by apply NoDup_keys_dict_of_items.
    rewrite dict_get_update.
    assert (Hnd : NoDup (keys d)).
    { eapply load_entities_NoDup; [exact El|apply NoDup_nil_2]. }
    rewrite (last_item_NoDup k d Hnd).
    destruct (dict_get k (dict_of_items m)) as [en|] eqn:Hitem.
    + destruct Hget as (r & e & Hd & He & Hh).
      exists e. split; [done|]. exists r. by rewrite Hd.
    + by rewrite Hget.
Qed.

Lemma __enter___unfold (p : string) (st : state) :
  __enter__ p st = _load p (cleared st).
Proof. reflexivity. Qed.

Lemma session_inv_nil (st : state) : session st = [] -> session_inv st.
Proof. intros E k r Hin. rewrite E in Hin. by apply elem_of_nil in Hin. Qed.

Lemma session_inv_refs_ok (st : state) : session_inv st -> refs_ok st.
Proof. intros Hinv k r Hin. destruct (Hinv k r Hin) as (e & -> & _). eauto. Qed.

(** After [_load], however it ends, every reference of the session is to
    an object. *)
Lemma _load_refs_ok (p : string) (st : state) :
  refs_ok st -> refs_ok (_load p st).1.
Proof.
  intros Hst.
  destruct (_load_cases p st)
    as [[Hf E] | [[Hf E] | [(j & Hf & _ & _ & E)
       | [(m & st2 & x & Hf & El & E) | (m & st2 & d & Hf & El & E)]]]].
  - by rewrite E.
  - by rewrite E.
  - rewrite E. intros k r Hin. by apply elem_of_nil in Hin.
  - rewrite E. simpl.
    destruct (load_entities_frame (dict_of_items m) [] (cleared st))
      as (_ & Hs & _).
    rewrite El in Hs. simpl in Hs.
    intros k r Hin. rewrite Hs in Hin. by apply elem_of_nil in Hin.
  - assert (Hsome : files st !! p <> None) by (by rewrite Hf).
    assert (Hok : is_ok (_load p st).2 = true) by (by rewrite E).
    destruct (_load_existing p st Hsome Hok) as [Hin _].
    intros k r Hkr. destruct (Hin k r Hkr) as (en & e & _ & _ & ->). eauto.
Qed.

(** [_load] keeps the invariant when the file is keyed. *)
Lemma _load_session_inv (p : string) (st : state) :
  keyed (files st !! p) -> session_inv st -> session_inv (_load p st).1.
Proof.
  intros Hkeyed Hst.
  destruct (_load_cases p st)
    as [[Hf E] | [[Hf E] | [(j & Hf & _ & _ & E)
       | [(m & st2 & x & Hf & El & E) | (m & st2 & d & Hf & El & E)]]]].
  - by rewrite E.
  - by rewrite E.
  - rewrite E. by apply session_inv_nil.
  - rewrite E. simpl. apply session_inv_nil.
    destruct (load_entities_frame (dict_of_items m) [] (cleared st))
      as (_ & Hs & _).
    by rewrite El in Hs.
  - assert (Hsome : files st !! p <> None) by (by rewrite Hf).
    assert (Hok : is_ok (_load p st).2 = true) by (by rewrite E).
    destruct (_load_existing p st Hsome Hok) as [Hin _].
    intros k r Hkr. destruct (Hin k r Hkr) as (en & e & Hitem & He & Hh).
    exists e. split; [done|]. by apply (Hkeyed k en e).
Qed.

(** ** [add], [new] and [get] *)

Lemma add_ok (r : nat) (u : string) (st : state) (e : Entity) :
  heap st !! r = Some e ->
  add r u st =
    (mkState (files st) (<[r := mkEntity (attr1 e) (Some u)]> (heap st))
             (dict_set u r (session st)), Ok u).
Proof. intros Hr. unfold add, bind, deref. by rewrite Hr. Qed.

Lemma add_bad (r : nat) (u : string) (st : state) :
  heap st !! r = None -> add r u st = (st, Raise BadRef).
Proof. intros Hr. unfold add, bind, deref. by rewrite Hr. Qed.

Lemma add_files (r : nat) (u : string) (st : state) :
  files (add r u st).1 = files st.
Proof.
  destruct (heap st !! r) as [e|] eqn:Hr.
  - by rewrite (add_ok r u st e Hr).
  - by rewrite (add_bad r u st Hr).
Qed.

(** [add] keeps the invariant when the entity is not yet in the
    session. *)
Lemma add_session_inv (r : nat) (u : string) (st : state) :
  r ∉ values (session st) -> session_inv st -> session_inv (add r u st).1.
Proof.
  intros Hnew Hst. destruct (heap st !! r) as [e|] eqn:Hr.
  - rewrite (add_ok r u st e Hr). simpl. intros k r' Hin. simpl in Hin.
    apply elem_of_dict_set in Hin as [[= -> ->] | Hin]; simpl.
    + exists (mkEntity (attr1 e) (Some u)). split; [|done].
      apply list_lookup_insert_eq. by apply lookup_lt_Some in Hr.
    + destruct (Hst k r' Hin) as (e' & Hr' & Hid).
      exists e'. split; [|done]. rewrite list_lookup_insert_ne; [done|].
      intros ->. apply Hnew. unfold values. apply list_elem_of_fmap.
      by exists (k, r').
  - by rewrite (add_bad r u st Hr).
Qed.

Lemma new_session_inv (e : Entity) (st : state) :
  session_inv st -> session_inv (new e st).1.
Proof.
  intros Hst k r Hin. simpl in *. destruct (Hst k r Hin) as (e' & Hr & Hid).
  exists e'. split; [|done]. by apply lookup_app_l_Some.
Qed.

(** ** [commit] *)

Lemma commit_ok (p : string) (st : state) :
  refs_ok st ->
  exists es,
    Forall2 (fun r e => heap st !! r = Some e) (values (session st)) es
    /\ commit p st =
         (mkState
            (<[p := Json (dumps (dict_of_items
                                   (map (fun e => (id e, model_dump e)) es)))]>
               (files st))
            (heap st) (session st), Ok tt).
Proof.
  intros Hrefs. unfold commit.
  destruct (mapM (fun r => heap st !! r) (values (session st))) as [es|] eqn:E.
  - exists es. split; [by apply mapM_Some|done].
  - exfalso. apply mapM_None in E. apply Exists_exists in E as (r & Hr & Hnone).
    unfold values in Hr. apply list_elem_of_fmap in Hr as ([k r'] & -> & Hin).
    destruct (Hrefs k r' Hin) as [e He]. simpl in Hnone. congruence.
Qed.

Lemma commit_heap_session (p : string) (st : state) :
  heap (commit p st).1 = heap st /\ session (commit p st).1 = session st.
Proof.
  unfold commit.
  by destruct (mapM (fun r => heap st !! r) (values (session st))).
Qed.

(** The items of a file that [commit] wrote from entities [es]. *)
Lemma written_items (es : list Entity) (k : string) (en : json) :
  (k, en) ∈ file_items
    (Some (Json (dumps (dict_of_items
                          (map (fun e => (id e, model_dump e)) es))))) ->
  exists e, e ∈ es /\ k = key_name (id e) /\ en = model_dump e.
Proof.
  simpl. intros Hin. apply elem_of_dict_of_items in Hin.
  apply list_elem_of_fmap in Hin as ([k0 en0] & [= -> ->] & Hin).
  apply elem_of_dict_of_items in Hin.
  apply list_elem_of_fmap in Hin as (e & [= -> ->] & Hin).
  exists e. done.
Qed.

(** [commit] writes a keyed file when the session satisfies the
    invariant (and otherwise leaves the file as it is). *)
Lemma commit_keyed (p : string) (st : state) :
  session_inv st -> keyed (files st !! p) -> keyed (files (commit p st).1 !! p).
Proof.
  intros Hinv Hkeyed.
  destruct (commit_ok p st (session_inv_refs_ok st Hinv)) as (es & Hes & ->).
  simpl. rewrite lookup_insert_eq.
  intros k en e Hitem He.
  apply written_items in Hitem as (e0 & Hin & -> & ->).
  rewrite Entity_of_model_dump in He. injection He as <-.
  apply list_elem_of_lookup in Hin as [i Hi].
  destruct (Forall2_lookup_r _ _ _ _ _ Hes Hi) as (r & Hr & Hre).
  assert (Hrin : r ∈ values (session st)).
  { apply list_elem_of_lookup. eauto. }
  unfold values in Hrin. apply list_elem_of_fmap in Hrin as ([k' r'] & -> & Hkr).
  destruct (Hinv k' r' Hkr) as (e' & Hr' & Hid). simpl in Hre.
  assert (e' = e0) by congruence. subst e'. by rewrite Hid.
Qed.

(** A file that [commit] wrote loads. *)
Lemma written_loadable (es : list Entity) :
  loadable (Some (Json (dumps (dict_of_items
                                 (map (fun e => (id e, model_dump e)) es)))))
  = true.
Proof.
  simpl. apply forallb_forall. intros [k en] Hin.
  apply list_elem_of_In in Hin.
  apply (written_items es k en) in Hin as (e & _ & _ & ->). cbn [snd].
  by rewrite Entity_of_model_dump.
Qed.


(** ** Entering *)

Lemma refs_ok_enter (p : string) (st0 : state) :
  refs_ok (__enter__ p st0).1.
Proof.
  rewrite __enter___unfold. apply _load_refs_ok.
  intros k r Hin. by apply elem_of_nil in Hin.
Qed.

(** Entering a loadable file returns, and the session then equals the
    contents of the file. *)
Lemma enter_loadable (p : string) (st : state) :
  loadable (files st !! p) = true ->
  exists st', __enter__ p st = (st', Ok tt)
              /\ files st' = files st
              /\ mirrors st' (files st !! p).
Proof.
  intros Hl. rewrite __enter___unfold.
  pose proof (_load_is_ok p (cleared st)) as Hok.
  pose proof (_load_files p (cleared st)) as Hfiles.
  simpl in Hok, Hfiles. rewrite Hl in Hok.
  destruct (files st !! p) as [f|] eqn:Hf.
  - assert (Hsome : files (cleared st) !! p <> None) by (simpl; by rewrite Hf).
    destruct (_load_existing p (cleared st) Hsome Hok) as [_ Hm].
    simpl in Hm. rewrite Hf in Hm.
    destruct (_load p (cleared st)) as [st' [[]|x]]; [|done].
    exists st'. done.
  - rewrite (_load_missing p (cleared st)) by done.
    exists (cleared st). repeat split; try done.
Qed.

Lemma leave_loadable (p : string) (st : state) :
  loadable (files st !! p) = true ->
  exists st', __exit__ p st = (st', Ok tt) /\ files st' = files st.
Proof.
  intros Hl. unfold __exit__, rollback.
  pose proof (_load_is_ok p st) as Hok.
  pose proof (_load_files p st) as Hfiles.
  rewrite Hl in Hok.
  destruct (_load p st) as [st' [[]|x]]; [|done].
  exists st'. done.
Qed.

(** ** States of an active unit of work *)

Lemma add_refs_ok (r : nat) (u : string) (st : state) :
  refs_ok st -> refs_ok (add r u st).1.
Proof.
  intros Hst. destruct (heap st !! r) as [e|] eqn:Hr.
  - rewrite (add_ok r u st e Hr). intros k r0 Hin. simpl in *.
    apply lookup_lt_is_Some. rewrite length_insert.
    apply elem_of_dict_set in Hin as [[= -> ->] | Hin].
    + by apply lookup_lt_Some in Hr.
    + by apply lookup_lt_is_Some, (Hst k).
  - by rewrite (add_bad r u st Hr).
Qed.

Lemma commit_loadable (p : string) (st : state) :
  refs_ok st -> loadable (files (commit p st).1 !! p) = true.
Proof.
  intros Hrefs. destruct (commit_ok p st Hrefs) as (es & _ & ->). simpl.
  rewrite lookup_insert_eq. apply written_loadable.
Qed.

(** Whatever was called on a unit of work since it was entered, the
    references of its session are to objects and its backing file, if
    there is one, loads. *)
Lemma reachable_active (ok_file : option text -> Prop)
    (ok_call : state -> call -> Prop) (p : string) (st : state) :
  reachable ok_file ok_call p st ->
  refs_ok st /\ loadable (files st !! p) = true.
Proof.
  induction 1 as [st0 _ Hok | st c _ [IHrefs IHl] _].
  - split; [apply refs_ok_enter|].
    rewrite __enter___unfold in Hok |- *.
    rewrite _load_files. by rewrite _load_is_ok in Hok.
  - destruct c as [| | | | r u | k | e]; simpl.
    + split; [apply refs_ok_enter|].
      rewrite __enter___unfold, _load_files. done.
    + split; [by apply _load_refs_ok|].
      unfold __exit__, rollback. by rewrite _load_files.
    + destruct (commit_heap_session p st) as [Hh Hs].
      split; [|by apply commit_loadable].
      intros k r Hin. rewrite Hh. rewrite Hs in Hin. by apply (IHrefs k).
    + split; [by apply _load_refs_ok|].
      unfold rollback. by rewrite _load_files.
    + split; [by apply add_refs_ok|]. by rewrite add_files.
    + unfold get. by destruct (dict_get k (session st)).
    + split; [|done]. intros k r Hin. simpl in *.
      apply lookup_lt_is_Some. rewrite length_app.
      apply (IHrefs k), lookup_lt_is_Some in Hin. lia.
Qed.

(** ** [rollback] *)

(** With a backing file that loads, [rollback] returns and the session
    then equals the contents of the file. *)
Lemma rollback_existing_file (p : string) (st : state) :
  files st !! p <> None -> loadable (files st !! p) = true ->
  exists st', rollback p st = (st', Ok tt) /\ mirrors st' (files st !! p).
Proof.
  intros Hsome Hl. unfold rollback.
  pose proof (_load_is_ok p st) as Hok. rewrite Hl in Hok.
  destruct (_load_existing p st Hsome Hok) as [_ Hm].
  destruct (_load p st) as [st' [[]|x]]; [|done].
  exists st'. done.
Qed.

(** Without a backing file, [rollback] changes nothing. *)
Lemma rollback_missing_file (p : string) (st : state) :
  files st !! p = None -> rollback p st = (st, Ok tt).
Proof. apply _load_missing. Qed.

(** ** The claims *)

(** C2. The claim is that [rollback] always makes the session equal to
    the contents of the backing file and so discards what was added since
    the last commit.  Here is a unit of work on a path with no file, in
    which an entity was added and nothing committed: [rollback] returns,
    the state is what it was, the session still holds the added entity,
    and so it does not equal the (empty) contents of the file. *)
Theorem C2_rollback_without_file_keeps_session :
  files added !! db = None
  /\ rollback db added = (added, Ok tt)
  /\ holds (rollback db added).1 id_a (mkEntity "xaxa" (Some id_a))
  /\ ~ mirrors (rollback db added).1 (files added !! db).
Proof.
  assert (Hf : files added !! db = None) by reflexivity.
  split; [done|]. rewrite (rollback_missing_file db added Hf).
  split; [done|]. split.
  - exists 0. split; reflexivity.
  - intros Hm. specialize (Hm id_a). rewrite Hf in Hm. simpl in Hm.
    vm_compute in Hm. discriminate.
Qed.



(** C6. In any state of a unit of work on a path, after [add] of an
    entity (under a new identifier, as [uuid4] promises) the session holds
    it; leaving the scope without [commit] and entering a new unit of work
    on the same path gives a session in which that identifier is absent,
    so that [get] raises [KeyError]. *)
Theorem C6_add_without_commit_is_lost
    (p : string) (st1 : state) (r : nat) (e : Entity) (u : string) :
  reachable any_file any_call p st1 ->
  heap st1 !! r = Some e ->
  uuid4_fresh u p st1 ->
  exists st2 st3 st4,
    add r u st1 = (st2, Ok u)
    /\ holds st2 u (mkEntity (attr1 e) (Some u))
    /\ __exit__ p st2 = (st3, Ok tt)
    /\ __enter__ p st3 = (st4, Ok tt)
    /\ dict_get u (session st4) = None
    /\ get u st4 = (st4, Raise (KeyError u)).
Proof.
  intros Hactive Hr (_ & _ & Hfile).
  destruct (reachable_active _ _ p st1 Hactive) as [_ Hl].
  set (e2 := mkEntity (attr1 e) (Some u)).
  set (st2 := mkState (files st1) (<[r := e2]> (heap st1))
                      (dict_set u r (session st1))).
  destruct (leave_loadable p st2 Hl) as (st3 & Hexit & Hf3).
  destruct (enter_loadable p st3) as (st4 & Henter4 & _ & Hm);
    [by rewrite Hf3|].
  rewrite Hf3 in Hm. simpl in Hm. specialize (Hm u).
  apply dict_get_None in Hfile. rewrite Hfile in Hm.
  exists st2, st3, st4.
  split; [by apply add_ok|]. split.
  { exists r. simpl. split.
    - rewrite dict_get_set. by rewrite decide_True.
    - apply list_lookup_insert_eq. by apply lookup_lt_Some in Hr. }
  split; [done|]. split; [done|]. split; [done|].
  unfold get. by rewrite Hm.
Qed.

(** The same program without the commit. *)
Lemma C6_witness :
  exists st4, dict_get id_a (session st4) = None
              /\ get id_a st4 = (st4, Raise (KeyError id_a)).
Proof.
  destruct (C6_add_without_commit_is_lost db made 0
              (mkEntity "xaxa" None) id_a)
    as (st2 & st3 & st4 & _ & _ & _ & _ & Hn & Hg).
  - apply (reach_call _ _ db entered (New (mkEntity "xaxa" None))); [|exact I].
    apply (reach_enter _ _ db blank); [exact I|reflexivity].
  - reflexivity.
  - split; [reflexivity|]. split.
    + apply not_elem_of_nil.
    + apply not_elem_of_nil.
  - exists st4. done.
Defined.

(** C7, as claimed, fails: adding one entity object twice leaves it in
    the session under both identifiers, and its id is the second one. *)
Lemma C7_counterexample :
  reachable any_file any_call db added_twice /\ ~ session_inv added_twice.
Proof.
  split.
  - apply (reach_call _ _ db added (Add 0 id_b)); [|exact I].
    apply (reach_call _ _ db made (Add 0 id_a)); [|exact I].
    apply (reach_call _ _ db entered (New (mkEntity "xaxa" None))); [|exact I].
    apply (reach_enter _ _ db blank); [exact I|reflexivity].
  - intros Hinv. destruct (Hinv id_a 0) as (e & He & Hid).
    + left.
    + vm_compute in He. injection He as <-. discriminate.
Qed.

(** So does entering on a file that was not written by [commit]: an
    entity stored under another key than its id is loaded as it is. *)
Lemma foreign_file_breaks_session_inv :
  reachable any_file adds_new db (run db Enter foreign)
  /\ ~ session_inv (run db Enter foreign).
Proof.
  split.
  - apply (reach_enter _ _ db foreign); [exact I|reflexivity].
  - intros Hinv. destruct (Hinv "k" 0) as (e & He & Hid).
    + left.
    + vm_compute in He. injection He as <-. discriminate.
Qed.

(** C7, amended.  When the backing file, if there is one, is keyed (as
    every file that [commit] writes from a session with the invariant is)
    and [add] is only given entities that the session does not hold yet,
    every state reached by entering, adding, getting, committing, rolling
    back and leaving satisfies the invariant: each entity of the session
    has the key it is stored under as its id. *)
Theorem C7_session_invariant (p : string) (st : state) :
  reachable keyed adds_new p st -> session_inv st.
Proof.
  intros Hreach.
  cut (session_inv st /\ keyed (files st !! p)); [tauto|].
  induction Hreach as [st0 Hkeyed _ | st c _ [IHinv IHkeyed] Hcall].
  - rewrite __enter___unfold. split.
    + apply _load_session_inv; [done|]. by apply session_inv_nil.
    + by rewrite _load_files.
  - destruct c as [| | | | r u | k | e]; simpl in *.
    + rewrite __enter___unfold. split.
      * apply _load_session_inv; [done|]. by apply session_inv_nil.
      * by rewrite _load_files.
    + unfold __exit__, rollback. split.
      * by apply _load_session_inv.
      * by rewrite _load_files.
    + split; [|by apply commit_keyed].
      destruct (commit_heap_session p st) as [Hh Hs].
      intros k r Hin. rewrite Hh. rewrite Hs in Hin. by apply IHinv.
    + unfold rollback. split.
      * by apply _load_session_inv.
      * by rewrite _load_files.
    + split; [by apply add_session_inv|]. by rewrite add_files.
    + unfold get. by destruct (dict_get k (session st)).
    + split; [by apply new_session_inv|done].
Qed.

Lemma keyed_no_file (st : state) (p : string) :
  files st !! p = None -> keyed (files st !! p).
Proof. intros -> k en e Hin. by apply elem_of_nil in Hin. Qed.

(** The program at the end of the source file, up to its commit. *)
Lemma C7_witness : session_inv committed.
Proof.
  apply (C7_session_invariant db).
  apply (reach_call _ _ db added Commit); [|exact I].
  apply (reach_call _ _ db made (Add 0 id_a)); [|apply not_elem_of_nil].
  apply (reach_call _ _ db entered (New (mkEntity "xaxa" None))); [|exact I].
  apply (reach_enter _ _ db blank); [|reflexivity].
  apply keyed_no_file. reflexivity.
Defined.

End UowRepoSpec.

(* ===================================================================== *)
(** * More properties of service_layer.py *)
(* ===================================================================== *)

Module ServiceLayerExtra.
Import ServiceLayer ServiceLayerSpec.

Lemma size_insert_cases (m : InMemory) (u : UUID) (todo : Todo) :
  size (<[u := todo]> m) =
    match m !! u with Some _ => size m | None => S (size m) end.
Proof.
  destruct (m !! u) as [old|] eqn:Hu.
  - rewrite <- (insert_delete_id m u old Hu) at 2.
    rewrite <- (insert_delete_eq m u todo).
    by rewrite !map_size_insert_None by apply lookup_delete_eq.
  - by apply map_size_insert_None.
Qed.

(** X1. Which message [Todo] construction raises: a title that is empty
    or made of whitespace only is refused as empty whatever its length,
    and any other title of more than 256 characters, counted before
    trimming, is refused as too long. *)
Theorem Todo_new_messages (t : str) (u : UUID) :
  (whitespace_only t ->
   Todo_new t u = Raise (InvalidTodoException "Title cannot be empty"))
  /\ (~ whitespace_only t -> (256 < len t)%Z ->
      Todo_new t u =
        Raise (InvalidTodoException "Title cannot exceed 256 characters")).
Proof.
  unfold Todo_new, __post_init__; simpl. split.
  - intros Hw. apply strip_nil in Hw. rewrite Hw. simpl.
    by rewrite orb_true_r.
  - intros Hw Hlen.
    assert (Hs : strip t <> []) by (by rewrite strip_nil).
    destruct t as [|c t]; [by destruct Hw; constructor|]. simpl negb.
    destruct (strip (c :: t)) as [|c' s'] eqn:E; [done|].
    unfold len at 1. simpl.
    apply Z.ltb_lt in Hlen. by rewrite Hlen.
Qed.

(** 300 spaces are refused as empty; 257 letters, and 255 letters between
    two spaces, as too long. *)
Lemma Todo_new_messages_witness :
  Todo_new (replicate 300 32%N) 1%N =
    Raise (InvalidTodoException "Title cannot be empty")
  /\ Todo_new (32%N :: replicate 255 120%N ++ [32%N]) 1%N =
       Raise (InvalidTodoException "Title cannot exceed 256 characters").
Proof.
  split.
  - apply (proj1 (Todo_new_messages (replicate 300 32%N) 1%N)).
    apply Forall_forall. intros c Hc.
    apply elem_of_replicate in Hc as [-> _].
    reflexivity.
  - apply (proj2 (Todo_new_messages
                    (32%N :: replicate 255 120%N ++ [32%N]) 1%N)).
    + intros Hw. apply Forall_cons in Hw as [_ Hw].
      apply Forall_cons in Hw as [Hx _]. vm_compute in Hx. discriminate.
    + vm_compute. reflexivity.
Defined.

(** X2. [create_todo] returns exactly when fewer than 10 entities are
    held and the title is valid.  It then returns the title under the
    identifier drawn, the repository holds the new todo under that
    identifier and its other entries as before, and the number of entries
    has grown by one unless the identifier was already held, in which case
    the todo held under it was replaced. *)
Theorem create_todo_returns (m : InMemory) (t : str) (u : UUID) :
  ((exists dto, (create_todo t u m).2 = Ok dto)
   <-> size m < 10 /\ valid_title t)
  /\ (forall dto, (create_todo t u m).2 = Ok dto ->
        dto = mkTodoDTO u t
        /\ (create_todo t u m).1 !! u = Some (mkTodo t u)
        /\ (forall k, k <> u -> (create_todo t u m).1 !! k = m !! k)
        /\ size (create_todo t u m).1 =
             match m !! u with Some _ => size m | None => S (size m) end).
Proof.
  destruct (decide (size m < 10)) as [Hm | Hm].
  - destruct (valid_title_dec t) as [Hv | Hn].
    + rewrite create_todo_valid by done. simpl. split.
      * split; [done|eauto].
      * intros dto [= <-]. split; [done|].
        split; [apply lookup_insert_eq|].
        split; [intros k Hk; by apply lookup_insert_ne|].
        apply size_insert_cases.
    + destruct (create_todo_invalid t u m Hm Hn) as [msg ->]. simpl. split.
      * split; [intros [dto ?]; discriminate|tauto].
      * intros dto ?. discriminate.
  - rewrite create_todo_full by lia. simpl. split.
    + split; [intros [dto ?]; discriminate|tauto].
    + intros dto ?. discriminate.
Qed.



Lemma create_todo_size (m : InMemory) (t : str) (u : UUID) :
  (size m <= 10 -> size (create_todo t u m).1 <= 10)
  /\ (10 <= size m -> (create_todo t u m).1 = m).
Proof.
  split.
  - intros Hm. destruct (decide (size m < 10)) as [Hlt | Hge].
    + destruct (valid_title_dec t) as [Hv | Hn].
      * rewrite create_todo_valid by done. simpl.
        rewrite size_insert_cases. destruct (m !! u); lia.
      * destruct (create_todo_invalid t u m Hlt Hn) as [msg ->]. simpl. lia.
    + rewrite create_todo_full by lia. simpl. lia.
  - intros Hm. by rewrite create_todo_full.
Qed.

(** X4. The limit is an invariant of the repository under [create_todo]:
    whatever the titles and the identifiers drawn, a repository that holds
    at most 10 entities holds at most 10 after any sequence of calls, and
    one that holds 10 or more is never changed. *)
Theorem create_todos_limit (calls : list (str * UUID)) (m : InMemory) :
  (size m <= 10 -> size (create_todos calls m).1 <= 10)
  /\ (10 <= size m -> (create_todos calls m).1 = m).
Proof.
  revert m. induction calls as [|[t u] rest IH]; intros m; [done|].
  cbn [create_todos].
  destruct (create_todo_size m t u) as [Hle Hge].
  destruct (create_todo t u m) as [m1 r1] eqn:E1. simpl in *.
  destruct (IH m1) as [IHle IHge].
  destruct (create_todos rest m1) as [m2 rs] eqn:E2. simpl in *.
  split.
  - intros Hm. auto.
  - intros Hm. rewrite (Hge Hm) in *. auto.
Qed.

Lemma create_todos_limit_witness :
  size (create_todos eleven_calls InMemory_init).1 <= 10
  /\ (create_todos eleven_calls full_repository).1 = full_repository.
Proof.
  split.
  - apply (proj1 (create_todos_limit eleven_calls InMemory_init)).
    vm_compute. lia.
  - apply (proj2 (create_todos_limit eleven_calls full_repository)).
    rewrite full_repository_size. lia.
Defined.

(** X5. When the identifiers drawn are new to the repository and pairwise
    distinct, a sequence of calls leaves as many more entities as calls
    returned: a refused call takes no place. *)
Theorem create_todos_held (calls : list (str * UUID)) (m : InMemory) :
  NoDup calls.*2 ->
  (forall u, u ∈ calls.*2 -> m !! u = None) ->
  size (create_todos calls m).1 =
    size m + length (filter (fun r => is_ok r = true) (create_todos calls m).2).
Proof.
  revert m. induction calls as [|[t u] rest IH]; intros m Hnd Hfresh.
  { simpl. lia. }
  simpl in Hnd. apply NoDup_cons in Hnd as [Hu Hnd].
  cbn [create_todos].
  assert (Hcases :
    create_todo t u m = (<[u := mkTodo t u]> m, Ok (mkTodoDTO u t))
    \/ exists e, create_todo t u m = (m, Raise e)).
  { destruct (decide (size m < 10)) as [Hlt | Hge].
    - destruct (valid_title_dec t) as [Hv | Hn].
      + left. by apply create_todo_valid.
      + right. destruct (create_todo_invalid t u m Hlt Hn) as [msg ->]. eauto.
    - right. rewrite create_todo_full by lia. eauto. }
  destruct Hcases as [-> | [e ->]].
  - assert (Hfresh' : forall v, v ∈ rest.*2 ->
              (<[u := mkTodo t u]> m : InMemory) !! v = None).
    { intros v Hv. rewrite lookup_insert_ne by (by intros ->).
      apply Hfresh. simpl. by right. }
    specialize (IH _ Hnd Hfresh').
    destruct (create_todos rest (<[u := mkTodo t u]> m)) as [m2 rs].
    cbn [fst snd] in *. rewrite filter_cons_True by done. cbn [length].
    rewrite IH, map_size_insert_None; [lia|].
    apply Hfresh. simpl. left.
  - assert (Hfresh' : forall v, v ∈ rest.*2 -> m !! v = None).
    { intros v Hv. apply Hfresh. simpl. by right. }
    specialize (IH _ Hnd Hfresh').
    destruct (create_todos rest m) as [m2 rs]. cbn [fst snd] in *.
    by rewrite filter_cons_False by done.
Qed.

Lemma create_todos_held_witness :
  size (create_todos eleven_calls InMemory_init).1 =
    size InMemory_init
    + length (filter (fun r => is_ok r = true)
                (create_todos eleven_calls InMemory_init).2).
Proof.
  apply (create_todos_held eleven_calls InMemory_init).
  - apply eleven_calls_distinct.
  - intros u _. apply lookup_empty.
Defined.



End ServiceLayerExtra.

(* ===================================================================== *)
(** * Properties of the endpoint *)
(* ===================================================================== *)

Module HttpAdapterSpec.
Import ServiceLayer ServiceLayerSpec HttpAdapter.

Lemma create_todo_invalid_message (t : str) (u : UUID) (m : InMemory) :
  size m < 10 -> ~ valid_title t ->
  create_todo t u m = (m, Raise (ValidationError "Title cannot be empty"))
  \/ create_todo t u m =
       (m, Raise (ValidationError "Title cannot exceed 256 characters")).
Proof.
  intros Hm Ht. unfold create_todo; simpl.
  rewrite enforce_limit_below by lia.
  destruct (Todo_new_invalid t u Ht) as [-> | ->]; auto.
Qed.

Lemma service_create_todo_full (v : value) (u : UUID) (m : InMemory) :
  10 <= size m ->
  service_create_todo v u m =
    (m, Raise (Service (BusinessRuleViolation
                          "Cannot create more todos, limit reached"))).
Proof.
  intros Hm. destruct v as [t | b]; unfold service_create_todo.
  - by rewrite create_todo_full.
  - simpl. unfold InMemory_count_all, enforce_limit.
    destruct (MAX_TODOS_PER_USER <=? Z.of_nat (size m))%Z eqn:E; [done|].
    apply Z.leb_gt in E. unfold MAX_TODOS_PER_USER in E. lia.
Qed.

Lemma service_create_todo_other (b : bool) (u : UUID) (m : InMemory) :
  size m < 10 ->
  service_create_todo (VOther b) u m =
    (m, if b then Raise AttributeError
        else Raise (Service (ValidationError "Title cannot be empty"))).
Proof.
  intros Hm. simpl. unfold InMemory_count_all.
  rewrite enforce_limit_below by lia. by destruct b.
Qed.

(** The outcomes of the endpoint, case by case. *)
Lemma post_todos_cases (request : dict string value) (u : UUID)
    (m : InMemory) :
  (dict_get "title" request = None
   /\ post_todos request u m = (m, Raise (KeyError "title")))
  \/ (exists v, dict_get "title" request = Some v /\ 10 <= size m
        /\ post_todos request u m =
             (m, Raise (HTTPException 400
                          "Cannot create more todos, limit reached")))
  \/ (dict_get "title" request = Some (VOther true) /\ size m < 10
      /\ post_todos request u m = (m, Raise AttributeError))
  \/ (dict_get "title" request = Some (VOther false) /\ size m < 10
      /\ post_todos request u m =
           (m, Raise (HTTPException 400 "Title cannot be empty")))
  \/ (exists t, dict_get "title" request = Some (VStr t) /\ size m < 10
        /\ ~ valid_title t
        /\ (post_todos request u m =
              (m, Raise (HTTPException 400 "Title cannot be empty"))
            \/ post_todos request u m =
                 (m, Raise (HTTPException 400
                              "Title cannot exceed 256 characters"))))
  \/ (exists t, dict_get "title" request = Some (VStr t) /\ size m < 10
        /\ valid_title t
        /\ post_todos request u m =
             (<[u := mkTodo t u]> m, Ok (mkCreated u t))).
Proof.
  unfold post_todos.
  destruct (dict_get "title" request) as [v|]; [|by left].
  right. destruct (decide (size m < 10)) as [Hm | Hm].
  - right. destruct v as [t | [|]].
    + do 2 right. destruct (valid_title_dec t) as [Hv | Hn].
      * right. exists t. do 3 (split; [done|]).
        unfold service_create_todo. by rewrite create_todo_valid.
      * left. exists t. do 3 (split; [done|]).
        unfold service_create_todo.
        destruct (create_todo_invalid_message t u m Hm Hn) as [-> | ->];
          auto.
    + left. do 2 (split; [done|]).
      by rewrite service_create_todo_other.
    + right; left. do 2 (split; [done|]).
      by rewrite service_create_todo_other.
  - left. exists v. split; [done|]. split; [lia|].
    by rewrite service_create_todo_full by lia.
Qed.

(** X6. What the endpoint lets through to the framework.  When it raises,
    the repository is unchanged, and what it raises is an [HTTPException]
    with status 400 and one of the three messages of the domain, or the
    [KeyError] of a request without [title], or the [AttributeError] of a
    title that is not a string and is truthy (met only below the limit):
    neither application error leaves the endpoint. *)
Theorem post_todos_raises (request : dict string value) (u : UUID)
    (m : InMemory) (e : exn) :
  (post_todos request u m).2 = Raise e ->
  (post_todos request u m).1 = m
  /\ ((e = KeyError "title" /\ dict_get "title" request = None)
      \/ (e = AttributeError
          /\ dict_get "title" request = Some (VOther true) /\ size m < 10)
      \/ (exists msg, e = HTTPException 400 msg
            /\ (msg = "Title cannot be empty"
                \/ msg = "Title cannot exceed 256 characters"
                \/ msg = "Cannot create more todos, limit reached"))).
Proof.
  destruct (post_todos_cases request u m)
    as [[Hg ->] | [(v & Hg & Hm & ->) | [(Hg & Hm & ->) | [(Hg & Hm & ->)
       | [(t & Hg & Hm & Hn & [-> | ->]) | (t & Hg & Hm & Hv & ->)]]]]];
    simpl; intros [= <-]; (split; [done|]); eauto 10.
Qed.

Lemma post_todos_raises_witness :
  (post_todos [("name", VStr [66%N])] 1%N create_service_container).1 =
    create_service_container
  /\ (post_todos [("title", VOther true)] 1%N create_service_container).1 =
       create_service_container.
Proof.
  split.
  - exact (proj1 (post_todos_raises [("name", VStr [66%N])] 1%N
                    create_service_container (KeyError "title") eq_refl)).
  - exact (proj1 (post_todos_raises [("title", VOther true)] 1%N
                    create_service_container AttributeError eq_refl)).
Defined.

(** X7. The endpoint answers with the created todo exactly when the
    request has a [title] that is a string and a valid title and fewer
    than 10 entities are held; the answer then carries the identifier
    drawn and the title as sent, and the repository holds the todo. *)
Theorem post_todos_created (request : dict string value) (u : UUID)
    (m : InMemory) :
  ((exists c, (post_todos request u m).2 = Ok c)
   <-> exists t, dict_get "title" request = Some (VStr t)
                 /\ valid_title t /\ size m < 10)
  /\ (forall c, (post_todos request u m).2 = Ok c ->
        body_id c = u
        /\ dict_get "title" request = Some (VStr (body_title c))
        /\ (post_todos request u m).1 !! u = Some (mkTodo (body_title c) u)).
Proof.
  destruct (post_todos_cases request u m)
    as [[Hg ->] | [(v & Hg & Hm & ->) | [(Hg & Hm & ->) | [(Hg & Hm & ->)
       | [(t & Hg & Hm & Hn & [-> | ->]) | (t & Hg & Hm & Hv & ->)]]]]];
    simpl.
  7: { split.
       - split; [eauto|]. intros _. eauto.
       - intros c [= <-]. simpl. split; [done|]. split; [done|].
         apply lookup_insert_eq. }
  all: split; [|intros c ?; discriminate].
  all: split; [intros [c ?]; discriminate|].
  all: intros (t' & Hg' & Hv' & Hm'); rewrite Hg in Hg'; try discriminate.
  - lia.
  - injection Hg' as <-. done.
  - injection Hg' as <-. done.
Qed.

(** X8. The order of the checks is kept at the endpoint: once 10 entities
    are held, a request with a [title], whatever its value, gets status
    400 with the message of the limit, and the repository stays as it
    is. *)
Theorem post_todos_limit_first (request : dict string value) (v : value)
    (u : UUID) (m : InMemory) :
  dict_get "title" request = Some v -> 10 <= size m ->
  post_todos request u m =
    (m, Raise (HTTPException 400 "Cannot create more todos, limit reached")).
Proof.
  intros Hg Hm. unfold post_todos. rewrite Hg.
  by rewrite service_create_todo_full.
Qed.

Lemma post_todos_limit_first_witness :
  post_todos [("title", VOther true)] 1%N full_repository =
    (full_repository,
     Raise (HTTPException 400 "Cannot create more todos, limit reached")).
Proof.
  apply (post_todos_limit_first [("title", VOther true)] (VOther true)).
  - reflexivity.
  - rewrite full_repository_size. lia.
Defined.

End HttpAdapterSpec.

(* ===================================================================== *)
(** * More properties of uow_repo.py *)
(* ===================================================================== *)

Module UowRepoExtra.
Import PyFacts UowRepo UowRepoSpec.

(** ** [add] and [get] *)

(** X9. [add] followed by [get] of the identifier it returned gives back
    the very object that was added, whose id is now that identifier and
    whose [attr1] is as before; the entries under other keys, the other
    objects and the files are as they were. *)
Theorem add_then_get (r : nat) (u : string) (st : state) (e : Entity) :
  heap st !! r = Some e ->
  exists st',
    add r u st = (st', Ok u)
    /\ get u st' = (st', Ok r)
    /\ heap st' !! r = Some (mkEntity (attr1 e) (Some u))
    /\ (forall k, k <> u -> dict_get k (session st') = dict_get k (session st))
    /\ (forall r', r' <> r -> heap st' !! r' = heap st !! r')
    /\ files st' = files st.
Proof.
  intros Hr. eexists. split; [by apply add_ok|]. simpl.
  split; [|split; [|split; [|split]]].
  - unfold get. simpl. rewrite dict_get_set. by rewrite decide_True.
  - apply list_lookup_insert_eq. by apply lookup_lt_Some in Hr.
  - intros k Hk. rewrite dict_get_set. by rewrite decide_False.
  - intros r' Hr'. by apply list_lookup_insert_ne.
  - done.
Qed.

Lemma add_then_get_witness :
  exists st', add 0 id_a made = (st', Ok id_a) /\ get id_a st' = (st', Ok 0).
Proof.
  destruct (add_then_get 0 id_a made (mkEntity "xaxa" None) eq_refl)
    as (st' & Ha & Hg & _).
  exists st'. done.
Defined.

(** X10. [add] keeps no copy: adding one object twice leaves it in the
    session under both identifiers, and its id is the second one. *)
Theorem add_twice_same_object
    (r : nat) (u1 u2 : string) (st : state) (e : Entity) :
  heap st !! r = Some e -> u1 <> u2 ->
  exists st1 st2,
    add r u1 st = (st1, Ok u1)
    /\ add r u2 st1 = (st2, Ok u2)
    /\ get u1 st2 = (st2, Ok r)
    /\ get u2 st2 = (st2, Ok r)
    /\ heap st2 !! r = Some (mkEntity (attr1 e) (Some u2)).
Proof.
  intros Hr Hne.
  assert (Hlt : r < length (heap st)) by (by apply lookup_lt_Some in Hr).
  eexists. eexists. split; [by apply add_ok|]. split.
  { apply add_ok. simpl. by apply list_lookup_insert_eq. }
  simpl. split; [|split].
  - unfold get. simpl. rewrite !dict_get_set.
    rewrite decide_False by done. by rewrite decide_True.
  - unfold get. simpl. rewrite dict_get_set. by rewrite decide_True.
  - apply list_lookup_insert_eq. by rewrite length_insert.
Qed.

Lemma add_twice_same_object_witness :
  exists st2, get id_a st2 = (st2, Ok 0) /\ get id_b st2 = (st2, Ok 0)
              /\ heap st2 !! 0 = Some (mkEntity "xaxa" (Some id_b)).
Proof.
  destruct (add_twice_same_object 0 id_a id_b made (mkEntity "xaxa" None))
    as (st1 & st2 & _ & _ & H1 & H2 & Hh).
  - reflexivity.
  - discriminate.
  - exists st2. done.
Defined.

(** ** What each call leaves alone *)

Lemma _load_heap (p : string) (st : state) :
  exists news, heap (_load p st).1 = heap st ++ news.
Proof.
  destruct (_load_cases p st)
    as [[_ ->] | [[_ ->] | [(j & _ & _ & _ & ->)
       | [(m & st2 & x & _ & E & ->) | (m & st2 & d & _ & E & ->)]]]];
    simpl; try (exists []; by rewrite app_nil_r);
    destruct (load_entities_frame (dict_of_items m) [] (cleared st))
      as (_ & _ & news & Hh); rewrite E in Hh; by exists news.
Qed.

(** X11. Only [commit] writes, and only the file of the unit of work:
    entering, leaving, rolling back, adding, getting and making an entity
    leave every file as it is, and [commit] leaves every other path as it
    is. *)
Theorem files_written_by_commit_only
    (p q : string) (c : call) (st : state) :
  c <> Commit \/ q <> p -> files (run p c st) !! q = files st !! q.
Proof.
  intros Hcq. destruct c as [| | | | r u | k | e]; simpl.
  - rewrite __enter___unfold. by rewrite _load_files.
  - unfold __exit__, rollback. by rewrite _load_files.
  - destruct Hcq as [? | Hq]; [done|]. unfold commit.
    destruct (mapM (fun r => heap st !! r) (values (session st))); [|done].
    simpl. by rewrite lookup_insert_ne.
  - unfold rollback. by rewrite _load_files.
  - by rewrite add_files.
  - unfold get. by destruct (dict_get k (session st)).
  - done.
Qed.

Lemma files_written_by_commit_only_witness :
  files (run db Commit added) !! "/tmp/other.json" = None
  /\ files (run db Rollback added) !! db = None.
Proof.
  split.
  - apply (files_written_by_commit_only db "/tmp/other.json" Commit added).
    right. discriminate.
  - apply (files_written_by_commit_only db db Rollback added).
    left. discriminate.
Defined.

(** X12. No call but [add] changes an entity object, and [add] changes
    only the object it is given: every other object is, after any call,
    what it was before (loading makes new objects and leaves the old
    ones).  [commit], [get] and the making of an entity also leave the
    session as it is. *)
Theorem objects_changed_by_add_only
    (p : string) (c : call) (st : state) (r : nat) (e : Entity) :
  heap st !! r = Some e ->
  (forall u, c <> Add r u) ->
  heap (run p c st) !! r = Some e
  /\ match c with
     | Commit | Get _ | New _ => session (run p c st) = session st
     | _ => True
     end.
Proof.
  intros Hr Hc. destruct c as [| | | | r' u | k | e']; simpl.
  - split; [|done]. rewrite __enter___unfold.
    destruct (_load_heap p (cleared st)) as [news ->]. simpl.
    by apply lookup_app_l_Some.
  - split; [|done]. unfold __exit__, rollback.
    destruct (_load_heap p st) as [news ->]. by apply lookup_app_l_Some.
  - destruct (commit_heap_session p st) as [-> ->]. done.
  - split; [|done]. unfold rollback.
    destruct (_load_heap p st) as [news ->]. by apply lookup_app_l_Some.
  - split; [|done]. destruct (heap st !! r') as [e0|] eqn:Hr'.
    + rewrite (add_ok r' u st e0 Hr'). simpl.
      rewrite list_lookup_insert_ne; [done|].
      intros ->. by apply (Hc u).
    + by rewrite (add_bad r' u st Hr').
  - unfold get. by destruct (dict_get k (session st)).
  - split; [|done]. by apply lookup_app_l_Some.
Qed.

Lemma objects_changed_by_add_only_witness :
  heap (run db Rollback committed) !! 0 = Some (mkEntity "xaxa" (Some id_a)).
Proof.
  apply (objects_changed_by_add_only db Rollback committed 0).
  - reflexivity.
  - discriminate.
Defined.

(** ** [commit] *)

(** X13. [commit] is idempotent: a second [commit] right after the first
    ends as the first did and leaves the state that the first left. *)
Theorem commit_twice (p : string) (st : state) :
  commit p (commit p st).1 = commit p st.
Proof.
  unfold commit.
  destruct (mapM (fun r => heap st !! r) (values (session st))) as [es|] eqn:E;
    simpl; rewrite E; [|done].
  by rewrite insert_insert_eq.
Qed.

Lemma elem_of_keys_dict_of_items {K V : Type} `{EqDecision K}
    (k : K) (items : list (K * V)) :
  k ∈ keys (dict_of_items items) <-> k ∈ keys items.
Proof.
  destruct (decide (k ∈ keys items)) as [Hin | Hnin].
  - split; [done|]. intros _.
    destruct (decide (k ∈ keys (dict_of_items items))) as [|Hn]; [done|].
    apply dict_get_None in Hn. rewrite dict_get_of_items in Hn.
    by apply last_item_None in Hn.
  - split; [|done]. intros Hin. exfalso.
    apply last_item_None in Hnin. rewrite <- dict_get_of_items in Hnin.
    by apply dict_get_None in Hnin.
Qed.

(** X14. [commit] writes the entities of the session under their ids, not
    under their session keys: every item of the file written is the dump
    of an entity of the session under the name of its id ([null] for an
    entity without id), and the id of every entity of the session names an
    item of the file. *)
Theorem commit_writes_by_id (p : string) (st : state) :
  refs_ok st ->
  exists st',
    commit p st = (st', Ok tt)
    /\ (forall k en, (k, en) ∈ file_items (files st' !! p) ->
          exists k' r e, (k', r) ∈ session st /\ heap st !! r = Some e
                         /\ k = key_name (id e) /\ en = model_dump e)
    /\ (forall k' r e, (k', r) ∈ session st -> heap st !! r = Some e ->
          key_name (id e) ∈ keys (file_items (files st' !! p))).
Proof.
  intros Hrefs. destruct (commit_ok p st Hrefs) as (es & Hes & Hc).
  eexists. split; [exact Hc|]. simpl. rewrite lookup_insert_eq. split.
  - intros k en Hin. apply (written_items es k en) in Hin as (e & He & -> & ->).
    apply list_elem_of_lookup in He as [i Hi].
    destruct (Forall2_lookup_r _ _ _ _ _ Hes Hi) as (r & Hr & Hre).
    assert (Hrin : r ∈ values (session st))
      by (apply list_elem_of_lookup; eauto).
    unfold values in Hrin.
    apply list_elem_of_fmap in Hrin as ([k' r'] & -> & Hkr).
    exists k', r', e. done.
  - intros k' r e Hkr Hr.
    assert (Hrin : r ∈ values (session st)).
    { unfold values. apply list_elem_of_fmap. by exists (k', r). }
    apply list_elem_of_lookup in Hrin as [i Hi].
    destruct (Forall2_lookup_l _ _ _ _ _ Hes Hi) as (e' & He' & Hre).
    simpl in Hre. assert (e' = e) as -> by congruence.
    simpl. apply elem_of_keys_dict_of_items.
    assert (Hs : id e ∈ keys (dict_of_items
                   (map (fun e => (id e, model_dump e)) es))).
    { apply elem_of_keys_dict_of_items. unfold keys.
      apply list_elem_of_fmap. exists (id e, model_dump e). split; [done|].
      apply list_elem_of_fmap. exists e. split; [done|].
      apply list_elem_of_lookup. eauto. }
    unfold keys in Hs |- *.
    apply list_elem_of_fmap in Hs as ([k0 v0] & Hk0 & Hin0). simpl in Hk0.
    subst k0. apply list_elem_of_fmap. exists (key_name (id e), v0).
    split; [done|]. apply list_elem_of_fmap. by exists (id e, v0).
Qed.

(** After adding one object twice and committing, the file has one item,
    under the second identifier. *)
Lemma commit_writes_by_id_witness :
  exists st', commit db added_twice = (st', Ok tt)
              /\ id_b ∈ keys (file_items (files st' !! db)).
Proof.
  destruct (commit_writes_by_id db added_twice) as (st' & Hc & _ & Hk).
  - intros k r Hin. vm_compute in Hin.
    apply elem_of_cons in Hin as [[= -> ->] | Hin]; [by eexists|].
    apply elem_of_cons in Hin as [[= -> ->] | Hin]; [by eexists|].
    by apply elem_of_nil in Hin.
  - exists st'. split; [done|].
    apply (Hk id_a 0 (mkEntity "xaxa" (Some id_b))); [left|reflexivity].
Defined.

(** ** [_load] as [rollback] and in [__enter__] *)





(** X16. With a backing file that loads, [rollback] returns, leaves the
    files as they are and makes the session equal to the contents of the
    file, whatever the session held: what was added since the last commit
    is gone and what was committed is back. *)
Theorem rollback_reloads_file (p : string) (st : state) :
  files st !! p <> None -> loadable (files st !! p) = true ->
  exists st',
    rollback p st = (st', Ok tt)
    /\ files st' = files st
    /\ mirrors st' (files st !! p).
Proof.
  intros Hsome Hl. unfold rollback.
  pose proof (_load_is_ok p st) as Hok. rewrite Hl in Hok.
  pose proof (_load_files p st) as Hfiles.
  destruct (_load_existing p st Hsome Hok) as [_ Hm].
  destruct (_load p st) as [st' [[]|x]]; [|done].
  exists st'. done.
Qed.

Lemma rollback_reloads_file_witness :
  exists st', rollback db committed = (st', Ok tt)
              /\ mirrors st' (files committed !! db).
Proof.
  destruct (rollback_reloads_file db committed) as (st' & Hr & _ & Hm).
  - discriminate.
  - reflexivity.
  - exists st'. done.
Defined.





Lemma load_entities_refs (items : list (string * json)) :
  forall acc st st' d,
    load_entities items acc st = (st', Ok d) ->
    forall k r, (k, r) ∈ d -> (k, r) ∈ acc \/ length (heap st) <= r.
Proof.
  induction items as [|[k0 en0] items IH]; intros acc st st' d; simpl.
  - intros [= <- <-] k r Hin. by left.
  - destruct (Entity_of en0) as [e0|x]; [|done].
    unfold bind, new. simpl. intros Hrun k r Hin.
    destruct (IH _ _ _ _ Hrun k r Hin) as [Hacc | Hlen].
    + apply elem_of_dict_set in Hacc as [[= -> ->] | Hacc]; [right; lia|].
      by left.
    + right. simpl in Hlen. rewrite length_app in Hlen. simpl in Hlen. lia.
Qed.

(** X19. A [rollback] that reloads a file fills the session with objects
    that the load has made: none of them existed before, so an entity that
    the caller got before the rollback is no longer the one that the
    session holds. *)
Theorem rollback_makes_new_objects (p : string) (st : state) :
  files st !! p <> None ->
  (rollback p st).2 = Ok tt ->
  forall k r, (k, r) ∈ session (rollback p st).1 ->
    heap st !! r = None /\ is_Some (heap (rollback p st).1 !! r).
Proof.
  unfold rollback. intros Hsome Hok k r Hin.
  assert (Hok' : is_ok (_load p st).2 = true) by (by rewrite Hok).
  split.
  - destruct (_load_cases p st)
      as [[Hf E] | [[Hf E] | [(j & Hf & _ & _ & E)
         | [(m & st2 & x & Hf & El & E) | (m & st2 & d & Hf & El & E)]]]];
      rewrite E in Hok, Hin; try done.
    simpl in Hin.
    destruct (load_entities_frame (dict_of_items m) [] (cleared st))
      as (_ & Hs & _).
    rewrite El in Hs. simpl in Hs. rewrite Hs in Hin.
    apply elem_of_dict_update in Hin as [Hin | Hin];
      [by apply elem_of_nil in Hin|].
    destruct (load_entities_refs _ _ _ _ _ El k r Hin) as [Hacc | Hlen];
      [by apply elem_of_nil in Hacc|].
    by apply lookup_ge_None.
  - destruct (_load_existing p st Hsome Hok') as [Hheld _].
    destruct (Hheld k r Hin) as (en & e & _ & _ & ->). eauto.
Qed.

Lemma rollback_makes_new_objects_witness :
  (id_a, 1) ∈ session (rollback db committed).1
  /\ heap committed !! 1 = None
  /\ is_Some (heap (rollback db committed).1 !! 1).
Proof.
  assert (Hin : (id_a, 1) ∈ session (rollback db committed).1)
    by (vm_compute; left).
  split; [exact Hin|].
  apply (rollback_makes_new_objects db committed) with (k := id_a).
  - discriminate.
  - reflexivity.
  - exact Hin.
Defined.

(** ** Dumping and loading *)

(** X20. [model_dump] and the construction of an [Entity] from keyword
    arguments are inverse on entities: the dump of an entity makes that
    entity again, so two entities with the same dump are equal. *)
Theorem model_dump_round_trip (e1 e2 : Entity) :
  Entity_of (model_dump e1) = Ok e1
  /\ (model_dump e1 = model_dump e2 -> e1 = e2).
Proof.
  split; [apply Entity_of_model_dump|].
  intros E. apply (f_equal Entity_of) in E.
  rewrite !Entity_of_model_dump in E. by injection E.
Qed.






End UowRepoExtra.
